(** * mongocheck: the verbosity-filtered reporter and the sanity checklist

    A shallow embedding of [mongocheck.py].  The script is sequential Python
    that talks to a MongoDB deployment through pymongo, so it is modelled as
    a program in a state-and-completion monad:

    - the state holds the outside world (the deployment, the process
      environment, the terminal), the trace of what the script did to it, and
      the one local variable of [sanity_checks] that is read on a path where
      it may be unbound ([client]);
    - a statement completes normally, by [return], by [continue], or by
      raising an exception, and [try]/[except]/[finally] and [for] act on
      those completions as Python does. *)

From Stdlib Require Import String List ZArith Lia Bool.
From stdpp Require Import base option gmap strings list.
Import ListNotations.
Local Open Scope string_scope.
Local Open Scope list_scope.
Set Warnings "-register-all".

(** ** Python values and exceptions *)

(** The documents pymongo hands back: JSON-like values.  A dictionary keeps
    its insertion order. *)
Inductive value : Type :=
| VNone
| VBool (b : bool)
| VInt (z : Z)
| VStr (s : string)
| VList (l : list value)
| VDict (d : list (string * value)).

Definition dict : Type := list (string * value).

(** The exception classes the script can meet.  [OperationFailure] and
    [ConnectionFailure] are pymongo's; [OtherError] stands for every class
    that is neither of them nor one of the built-in ones below. *)
Inductive exn : Type :=
| OperationFailure (detail : string)
| ConnectionFailure (detail : string)
| KeyError (key : string)
| IndexError
| TypeError
| UnboundLocalError (name : string)
| OtherError (detail : string).

Definition is_OperationFailure (e : exn) : bool :=
  match e with OperationFailure _ => true | _ => false end.

Definition is_ConnectionFailure (e : exn) : bool :=
  match e with ConnectionFailure _ => true | _ => false end.

(** What a call into a library gives back. *)
Inductive reply (R : Type) : Type :=
| Returns (r : R)
| Throws (e : exn).
Arguments Returns {R} r.
Arguments Throws {R} e.

(** [d[k]] on a dictionary. *)
Fixpoint dict_lookup (d : dict) (k : string) : option value :=
  match d with
  | [] => None
  | (k', v) :: d' => if String.eqb k' k then Some v else dict_lookup d' k
  end.

Definition dict_getitem (d : dict) (k : string) : reply value :=
  match dict_lookup d k with
  | Some v => Returns v
  | None => Throws (KeyError k)
  end.

(** [d.get(k, default)]. *)
Definition dict_get (d : dict) (k : string) (default : value) : value :=
  match dict_lookup d k with
  | Some v => v
  | None => default
  end.

(** [v[k]] for a string key [k]. *)
Definition getitem_key (v : value) (k : string) : reply value :=
  match v with
  | VDict d => dict_getitem d k
  | _ => Throws TypeError
  end.

(** [v[0]]. *)
Definition getitem_first (v : value) : reply value :=
  match v with
  | VList [] => Throws IndexError
  | VList (x :: _) => Returns x
  | VStr EmptyString => Throws IndexError
  | VStr (String c _) => Returns (VStr (String c EmptyString))
  | VDict _ => Throws (KeyError "0")
  | _ => Throws TypeError
  end.

(** Truth value of an object in a condition. *)
Definition truthy (v : value) : bool :=
  match v with
  | VNone => false
  | VBool b => b
  | VInt z => negb (z =? 0)%Z
  | VStr s => negb (String.eqb s "")
  | VList l => negb (Nat.eqb (List.length l) 0)
  | VDict d => negb (Nat.eqb (List.length d) 0)
  end.

(** [v == "..."] against a string literal. *)
Definition eq_str (v : value) (s : string) : bool :=
  match v with
  | VStr s' => String.eqb s' s
  | _ => false
  end.

(** Sequencing of evaluations that may raise. *)
Definition reply_bind {R S} (r : reply R) (k : R -> reply S) : reply S :=
  match r with
  | Returns v => k v
  | Throws e => Throws e
  end.

(** [collection_info["cursor"]["firstBatch"][0]["type"]] *)
Definition collection_type (collection_info : dict) : reply value :=
  reply_bind (dict_getitem collection_info "cursor") (fun cursor =>
  reply_bind (getitem_key cursor "firstBatch") (fun firstBatch =>
  reply_bind (getitem_first firstBatch) (fun first =>
  getitem_key first "type"))).

(** A document stored in a collection: the server gives every document an
    [_id], so the dictionary [find_one] returns is never empty. *)
Record document : Type := Document {
  doc_id : value;
  doc_fields : dict
}.

Definition document_dict (d : document) : dict :=
  ("_id", doc_id d) :: doc_fields d.

(** ** Handles *)

Record Client : Type := { client_uri : string }.
Record Database : Type := { db_client : Client; db_name : string }.
Record Collection : Type := { coll_db : Database; coll_name : string }.

(** [client[name]] and [db[name]] only build a handle. *)
Definition client_getitem (c : Client) (name : string) : Database :=
  {| db_client := c; db_name := name |}.

Definition db_getitem (d : Database) (name : string) : Collection :=
  {| coll_db := d; coll_name := name |}.

(** ** The trace *)

(** The calls the script makes into pymongo, [os] and the terminal. *)
Inductive call : Type :=
| CMongoClient (uri : string)
| CPing
| CReplSetGetStatus
| CListDatabaseNames
| CListCollectionNames (db : string)
| CListCollections (db coll : string)
| CValidate (db coll : string)
| CIndexInformation (db coll : string)
| CFindOne (db coll : string)
| CClose
| CGetenv (name : string)
| CInput (prompt : string).

(** What happened, in order.  [Print m] is a line written to standard
    output; [Report level m] records that [log] was invoked with [m] at
    [level] (whether or not the line passed the threshold); [Call c] is a
    call into a library. *)
Inductive event (A : Type) : Type :=
| Call (c : call)
| Report (level : string) (m : A)
| Print (m : A).
Arguments Call {A} c.
Arguments Report {A} level m.
Arguments Print {A} m.

(** ** The monad *)

Section Prog.
Context {W A : Type}.

Record state : Type := State {
  world : W;
  trace : list (event A);
  var_client : option Client
}.

(** How a statement ends. *)
Inductive completion (R : Type) : Type :=
| Normal (r : R)
| Returned
| Continued
| Raised (e : exn).

Definition prog (R : Type) : Type := state -> completion R * state.

Definition ret {R} (r : R) : prog R := fun s => (Normal R r, s).

Definition bind {R S} (m : prog R) (k : R -> prog S) : prog S :=
  fun s =>
    match m s with
    | (Normal _ r, s') => k r s'
    | (Returned _, s') => (Returned S, s')
    | (Continued _, s') => (Continued S, s')
    | (Raised _ e, s') => (Raised S e, s')
    end.

Definition raise {R} (e : exn) : prog R := fun s => (Raised R e, s).
Definition return_ {R} : prog R := fun s => (Returned R, s).
Definition continue_ {R} : prog R := fun s => (Continued R, s).

Definition emit (ev : event A) : prog unit :=
  fun s => (Normal unit tt,
            {| world := world s; trace := trace s ++ [ev];
               var_client := var_client s |}).

Definition of_reply {R} (r : reply R) : prog R :=
  match r with
  | Returns v => ret v
  | Throws e => raise e
  end.

(** A library call: it is recorded, then answered by the world. *)
Definition invoke {R} (c : call) (f : W -> reply R * W) : prog R :=
  bind (emit (Call c)) (fun _ s =>
    let (r, w') := f (world s) in
    of_reply r {| world := w'; trace := trace s;
                  var_client := var_client s |}).

(** [try: body except <classes>: handler].  [handler e] is [None] when no
    [except] clause matches the class of [e]. *)
Definition try_except {R} (body : prog R)
    (handler : exn -> option (prog R)) : prog R :=
  fun s =>
    match body s with
    | (Raised _ e, s') =>
        match handler e with
        | Some h => h s'
        | None => (Raised R e, s')
        end
    | other => other
    end.

(** [try: body finally: cleanup].  The cleanup runs however the body
    ended; when the cleanup itself does not end normally, its completion
    replaces the body's. *)
Definition try_finally {R} (body : prog R) (cleanup : prog unit) : prog R :=
  fun s =>
    let (c, s') := body s in
    match cleanup s' with
    | (Normal _ _, s'') => (c, s'')
    | (Returned _, s'') => (Returned R, s'')
    | (Continued _, s'') => (Continued R, s'')
    | (Raised _ e, s'') => (Raised R e, s'')
    end.

(** [for x in xs: body]. *)
Fixpoint for_each {X} (xs : list X) (body : X -> prog unit) : prog unit :=
  match xs with
  | [] => ret tt
  | x :: xs' =>
      fun s =>
        match body x s with
        | (Normal _ _, s') => for_each xs' body s'
        | (Continued _, s') => for_each xs' body s'
        | (Returned _, s') => (Returned unit, s')
        | (Raised _ e, s') => (Raised unit e, s')
        end
  end.

(** A function body that falls off its end or executes [return]. *)
Definition def (body : prog unit) : prog unit :=
  fun s =>
    match body s with
    | (Returned _, s') => (Normal unit tt, s')
    | other => other
    end.

(** Assignment to, and use of, the local variable [client]. *)
Definition store_client (c : Client) : prog unit :=
  fun s => (Normal unit tt,
            {| world := world s; trace := trace s; var_client := Some c |}).

Definition load_client : prog Client :=
  fun s =>
    match var_client s with
    | Some c => (Normal Client c, s)
    | None => (Raised Client (UnboundLocalError "client"), s)
    end.
End Prog.

Arguments state : clear implicits.
Arguments prog : clear implicits.
Arguments Normal {R} r.
Arguments Returned {R}.
Arguments Continued {R}.
Arguments Raised {R} e.

Declare Scope prog_scope.
Delimit Scope prog_scope with prog.
Notation "'let*' x ':=' m 'in' k" := (bind m (fun x => k))
  (at level 10, x name, m at level 100, k at level 200) : prog_scope.
Notation "m '>>' k" := (bind m (fun _ => k))
  (at level 100, k at level 200, right associativity) : prog_scope.
Local Open Scope prog_scope.

(** ** The reporter *)

(** [levels = {"error": 0, "warning": 1, "info": 2}] *)
Definition levels : gmap string Z :=
  <["error" := 0%Z]> (<["warning" := 1%Z]> (<["info" := 2%Z]> ∅)).

(** [levels[k]] *)
Definition levels_getitem (k : string) : reply Z :=
  match levels !! k with
  | Some n => Returns n
  | None => Throws (KeyError k)
  end.

Section Reporter.
Context {W A : Type}.

(** [print(message)] *)
Definition print (message : A) : prog W A unit := emit (Print message).

(** [def log(message, level, verbosity)].  The comparison evaluates
    [levels[verbosity]] before [levels[level]]. *)
Definition log (message : A) (level verbosity : string) : prog W A unit :=
  emit (Report level message) >>
  let* v := of_reply (levels_getitem verbosity) in
  let* l := of_reply (levels_getitem level) in
  if (l <=? v)%Z then print message else ret tt.
End Reporter.

(** The lines on standard output, oldest first. *)
Fixpoint stdout {A} (t : list (event A)) : list A :=
  match t with
  | [] => []
  | Print m :: t' => m :: stdout t'
  | _ :: t' => stdout t'
  end.

(** The messages handed to [log], with their levels. *)
Fixpoint reports {A} (t : list (event A)) : list (string * A) :=
  match t with
  | [] => []
  | Report l m :: t' => (l, m) :: reports t'
  | _ :: t' => reports t'
  end.

(** The library calls. *)
Fixpoint calls {A} (t : list (event A)) : list call :=
  match t with
  | [] => []
  | Call c :: t' => c :: calls t'
  | _ :: t' => calls t'
  end.

(** The rank of a level name, for the names [log] knows. *)
Definition rank (level : string) : option Z := levels !! level.

Definition level_name (s : string) : Prop :=
  s = "error" \/ s = "warning" \/ s = "info".

(** ** The outside world *)

(** What pymongo, [os.getenv] and [input] answer, as functions of the state
    of the world [W]; every call may change it, and every call into pymongo
    or the terminal, [close] apart, may raise. *)
Record Driver (W : Type) : Type := {
  (** [MongoClient(uri)] *)
  MongoClient : string -> W -> reply Client * W;
  (** [client.admin.command("ping")] *)
  command_ping : Client -> W -> reply dict * W;
  (** [client.admin.command("replSetGetStatus")] *)
  command_replSetGetStatus : Client -> W -> reply dict * W;
  (** [client.list_database_names()] *)
  list_database_names : Client -> W -> reply (list string) * W;
  (** [db.list_collection_names()] *)
  list_collection_names : Database -> W -> reply (list string) * W;
  (** [db.command("listCollections", filter={"name": name})] *)
  command_listCollections : Database -> string -> W -> reply dict * W;
  (** [db.command({"validate": name})] *)
  command_validate : Database -> string -> W -> reply dict * W;
  (** [collection.index_information()] *)
  index_information : Collection -> W -> reply dict * W;
  (** [collection.find_one()] *)
  find_one : Collection -> W -> reply (option document) * W;
  (** [client.close()]: it does not raise (the driver ignores the errors of
      the commands it sends while closing). *)
  close : Client -> W -> W;
  (** [os.getenv(name)] *)
  getenv : string -> W -> option string;
  (** [input(prompt)] *)
  input : string -> W -> reply string * W
}.
Arguments MongoClient {W} _ _ _.
Arguments command_ping {W} _ _ _.
Arguments command_replSetGetStatus {W} _ _ _.
Arguments list_database_names {W} _ _ _.
Arguments list_collection_names {W} _ _ _.
Arguments command_listCollections {W} _ _ _ _.
Arguments command_validate {W} _ _ _ _.
Arguments index_information {W} _ _ _.
Arguments find_one {W} _ _ _.
Arguments close {W} _ _ _.
Arguments getenv {W} _ _ _.
Arguments input {W} _ _ _.

(** ** The messages of the checker *)

(** One constructor per message template of [sanity_checks], holding the
    values the f-string interpolates. *)
Inductive message : Type :=
| MConnected                         (* Connected to MongoDB *)
| MPingOk                            (* MongoDB is responsive (ping check passed) *)
| MPingFailed (e : exn)              (* Ping check failed: {e} *)
| MReplicaSetStatus (myState primary : value)
                                     (* Replica Set Status: {..} (Primary node: {..}) *)
| MReplicaSetUnavailable (e : exn)   (* Unable to fetch replica set status ...: {e} *)
| MDatabases (databases : list string)          (* Databases: {databases} *)
| MValidatingDatabase (db_name : string)        (* Validating collections in database: {db_name} *)
| MSkippingView (collection_name : string)      (* Skipping index check on {..}: it is a view ... *)
| MCollectionValid (collection_name : string)   (* {..} collection is valid. *)
| MValidationFailed (collection_name : string) (validation : dict)
                                     (* {..} collection validation failed: {validation} *)
| MIndexes (collection_name : string) (indexes : dict)
                                     (* Indexes for {..}: {indexes} *)
| MValidateError (collection_name : string) (e : exn)
                                     (* Failed to validate {..}: {e} *)
| MCheckingData                      (* Checking data from one collection for sanity *)
| MSampleDocument (collection_name : string) (sample_doc : document)
                                     (* Sample document from {..}: {sample_doc} *)
| MNoDocuments (collection_name : string)
                                     (* No documents found in {..} for sampling *)
| MConnectFailed (e : exn)           (* Failed to connect to MongoDB: {ce} *)
| MConnectionClosed.                 (* Connection closed *)

(** ** The checker *)

Section Checker.
Context {W : Type} (drv : Driver W).

#[local] Abbreviation prog := (prog W message).

(** [except OperationFailure as e: h e] *)
Definition except_OperationFailure {R} (h : exn -> prog R)
    (e : exn) : option (prog R) :=
  if is_OperationFailure e then Some (h e) else None.

(** [except ConnectionFailure as ce: h ce] *)
Definition except_ConnectionFailure {R} (h : exn -> prog R)
    (e : exn) : option (prog R) :=
  if is_ConnectionFailure e then Some (h e) else None.

(** Lines 59-64: the ping check. *)
Definition ping_check (client : Client) (verbosity : string) : prog unit :=
  try_except
    (invoke CPing (command_ping drv client) >>
     log MPingOk "info" verbosity)
    (except_OperationFailure (fun e =>
       log (MPingFailed e) "error" verbosity >>
       return_)).

(** Lines 67-71: the replica set status. *)
Definition replica_set_check (client : Client) (verbosity : string)
    : prog unit :=
  try_except
    (let* repl_status :=
       invoke CReplSetGetStatus (command_replSetGetStatus drv client) in
     let* myState := of_reply (dict_getitem repl_status "myState") in
     let* members := of_reply (dict_getitem repl_status "members") in
     let* member := of_reply (getitem_first members) in
     let* name := of_reply (getitem_key member "name") in
     log (MReplicaSetStatus myState name) "info" verbosity)
    (except_OperationFailure (fun e =>
       log (MReplicaSetUnavailable e) "warning" verbosity)).

(** Lines 84-99: the [try] block of the loop over the collections of [db]. *)
Definition validate_collection_body (db : Database) (verbosity : string)
    (collection_name : string) : prog unit :=
  let* collection_info :=
    invoke (CListCollections (db_name db) collection_name)
           (command_listCollections drv db collection_name) in
  let* type := of_reply (collection_type collection_info) in
  (if eq_str type "view"
   then log (MSkippingView collection_name) "warning" verbosity >>
        continue_
   else ret tt) >>
  let* validation :=
    invoke (CValidate (db_name db) collection_name)
           (command_validate drv db collection_name) in
  (if truthy (dict_get validation "valid" (VBool false))
   then log (MCollectionValid collection_name) "info" verbosity
   else log (MValidationFailed collection_name validation)
            "error" verbosity) >>
  let* indexes :=
    invoke (CIndexInformation (db_name db) collection_name)
           (index_information drv (db_getitem db collection_name)) in
  log (MIndexes collection_name indexes) "info" verbosity.

(** Lines 83-102: the body of the loop over the collections of [db]. *)
Definition validate_collection (db : Database) (verbosity : string)
    (collection_name : string) : prog unit :=
  try_except
    (validate_collection_body db verbosity collection_name)
    (except_OperationFailure (fun e =>
       log (MValidateError collection_name e) "error" verbosity)).

(** Lines 78-102: the body of the loop over the databases. *)
Definition validate_database (client : Client) (verbosity : string)
    (db_name : string) : prog unit :=
  let db := client_getitem client db_name in
  let* collections :=
    invoke (CListCollectionNames db_name) (list_collection_names drv db) in
  log (MValidatingDatabase db_name) "info" verbosity >>
  for_each collections (validate_collection db verbosity).

(** [xs[0]] on a list of names. *)
Definition first_name (xs : list string) : reply string :=
  match xs with
  | [] => Throws IndexError
  | x :: _ => Returns x
  end.

(** Lines 105-113: the data sample. *)
Definition sample_data (client : Client) (verbosity : string)
    (databases : list string) : prog unit :=
  log MCheckingData "info" verbosity >>
  let* first_db := of_reply (first_name databases) in
  let sample_db := client_getitem client first_db in
  let* names :=
    invoke (CListCollectionNames first_db)
           (list_collection_names drv sample_db) in
  let* sample_collection_name := of_reply (first_name names) in
  let sample_collection := db_getitem sample_db sample_collection_name in
  let* sample_doc :=
    invoke (CFindOne first_db sample_collection_name)
           (find_one drv sample_collection) in
  match sample_doc with
  | Some doc =>
      if truthy (VDict (document_dict doc))
      then log (MSampleDocument sample_collection_name doc) "info" verbosity
      else log (MNoDocuments sample_collection_name) "warning" verbosity
  | None => log (MNoDocuments sample_collection_name) "warning" verbosity
  end.

(** Lines 74-113: enumeration, validation and sampling. *)
Definition enumerate_and_validate (client : Client) (verbosity : string)
    : prog unit :=
  let* databases :=
    invoke CListDatabaseNames (list_database_names drv client) in
  log (MDatabases databases) "info" verbosity >>
  for_each databases (validate_database client verbosity) >>
  sample_data client verbosity databases.

(** Lines 58-113: the checks made on the open connection. *)
Definition checks (client : Client) (verbosity : string) : prog unit :=
  ping_check client verbosity >>
  replica_set_check client verbosity >>
  enumerate_and_validate client verbosity.

(** Lines 55-113: the body of the outer [try]. *)
Definition checklist (uri verbosity : string) : prog unit :=
  let* c := invoke (CMongoClient uri) (MongoClient drv uri) in
  store_client c >>
  log MConnected "info" verbosity >>
  let* client := load_client in
  checks client verbosity.

(** Lines 117-120: the [finally] block. *)
Definition teardown (verbosity : string) : prog unit :=
  let* client := load_client in
  invoke CClose (fun w => (Returns tt, close drv client w)) >>
  log MConnectionClosed "info" verbosity.

(** [def sanity_checks(uri, verbosity)] *)
Definition sanity_checks (uri verbosity : string) : prog unit :=
  def
    (try_finally
       (try_except
          (checklist uri verbosity)
          (except_ConnectionFailure (fun ce =>
             log (MConnectFailed ce) "error" verbosity)))
       (teardown verbosity)).

(** ** The command line *)

(** The namespace [parser.parse_args()] returns: [uri] is [None] when the
    flag is absent, [verbosity] defaults to ["info"]. *)
Record Namespace : Type := {
  args_uri : option string;
  args_verbosity : string
}.

(** Truth value of an optional string: [None] and [""] are false. *)
Definition truthy_str (o : option string) : bool :=
  match o with
  | None => false
  | Some s => negb (String.eqb s "")
  end.

(** [def get_mongo_uri()] *)
Definition get_mongo_uri : prog string :=
  let* mongo_uri :=
    invoke (CGetenv "MONGO_URI")
           (fun w => (Returns (getenv drv "MONGO_URI" w), w)) in
  if truthy_str mongo_uri
  then ret (default "" mongo_uri)
  else invoke (CInput "Please provide your MongoDB Atlas URI: ")
              (input drv "Please provide your MongoDB Atlas URI: ").

(** Line 140: [args.uri if args.uri else get_mongo_uri()] *)
Definition resolve_uri (args : Namespace) : prog string :=
  if truthy_str (args_uri args)
  then ret (default "" (args_uri args))
  else get_mongo_uri.

(** [def main()], from the parsed arguments on (lines 140-143). *)
Definition main (args : Namespace) : prog unit :=
  let* mongo_uri := resolve_uri args in
  sanity_checks mongo_uri (args_verbosity args).
End Checker.

(** ** A deployment that answers the same way every time

    A world whose answers do not depend on what was asked before; it is the
    world of the examples below. *)
Record deployment : Type := {
  dep_connect : option exn;
  dep_ping : reply dict;
  dep_replSetGetStatus : reply dict;
  dep_databases : reply (list string);
  dep_collections : string -> reply (list string);
  dep_listCollections : string -> string -> reply dict;
  dep_validate : string -> string -> reply dict;
  dep_indexes : string -> string -> reply dict;
  dep_find_one : string -> string -> reply (option document);
  dep_environ : string -> option string;
  dep_typed : reply string
}.

Definition fixed_driver : Driver deployment := {|
  MongoClient uri w :=
    (match dep_connect w with
     | None => Returns {| client_uri := uri |}
     | Some e => Throws e
     end, w);
  command_ping _ w := (dep_ping w, w);
  command_replSetGetStatus _ w := (dep_replSetGetStatus w, w);
  list_database_names _ w := (dep_databases w, w);
  list_collection_names db w := (dep_collections w (db_name db), w);
  command_listCollections db name w :=
    (dep_listCollections w (db_name db) name, w);
  command_validate db name w := (dep_validate w (db_name db) name, w);
  index_information coll w :=
    (dep_indexes w (db_name (coll_db coll)) (coll_name coll), w);
  find_one coll w :=
    (dep_find_one w (db_name (coll_db coll)) (coll_name coll), w);
  close _ w := w;
  getenv name w := dep_environ w name;
  input _ w := (dep_typed w, w)
|}.

(** The metadata [listCollections] returns for a name of the given type. *)
Definition collection_info (name type : string) : dict :=
  [("cursor",
    VDict [("id", VInt 0);
           ("firstBatch",
            VList [VDict [("name", VStr name); ("type", VStr type)]])]);
   ("ok", VInt 1)].

Definition ok_reply : dict := [("ok", VInt 1)].

(** A standalone server with one database [shop] holding the collection
    [orders] (one document) and the view [recent]. *)
Definition standalone : deployment := {|
  dep_connect := None;
  dep_ping := Returns ok_reply;
  dep_replSetGetStatus := Throws (OperationFailure "not running with --replSet");
  dep_databases := Returns ["shop"];
  dep_collections _ := Returns ["orders"; "recent"];
  dep_listCollections _ name :=
    Returns (collection_info name
               (if String.eqb name "recent" then "view" else "collection"));
  dep_validate _ _ := Returns [("valid", VBool true); ("ok", VInt 1)];
  dep_indexes _ _ := Returns [("_id_", VDict [("v", VInt 2)])];
  dep_find_one _ _ :=
    Returns (Some {| doc_id := VInt 1; doc_fields := [("total", VInt 30)] |});
  dep_environ _ := None;
  dep_typed := Returns "mongodb://localhost:27017"
|}.

Definition start {W A} (w : W) : state W A :=
  {| world := w; trace := []; var_client := None |}.

(** ** Notions used in the statements *)

(** Whether a message at [level] passes the threshold [verbosity]. *)
Definition passes (level verbosity : string) : bool :=
  match rank verbosity, rank level with
  | Some v, Some l => (l <=? v)%Z
  | _, _ => false
  end.

(** What one call of [log] adds to the trace when both names are known. *)
Definition log_effect {A} (message : A) (level verbosity : string)
    : list (event A) :=
  Report level message :: (if passes level verbosity then [Print message] else []).

(** [s] with [d] appended to its trace. *)
Definition extend {W A} (s : state W A) (d : list (event A)) : state W A :=
  {| world := world s; trace := trace s ++ d; var_client := var_client s |}.

(** Every event [p] adds satisfies [P], and [p] does not assign [client]. *)
Definition emits_only {W A R} (P : event A -> Prop) (p : prog W A R) : Prop :=
  forall s,
    var_client (snd (p s)) = var_client s /\
    exists d, trace (snd (p s)) = trace s ++ d /\ Forall P d.

Definition not_close {A} (ev : event A) : Prop := ev <> Call CClose.

(** Messages of the checks that come after the ping. *)
Definition later_check (m : message) : bool :=
  match m with
  | MConnected | MPingOk | MPingFailed _ | MConnectFailed _
  | MConnectionClosed => false
  | _ => true
  end.

(** The message the checker logs for a ping that raised [e]: the ping's own
    handler takes an [OperationFailure], the outer one a
    [ConnectionFailure]. *)
Definition ping_error (e : exn) : message :=
  if is_OperationFailure e then MPingFailed e else MConnectFailed e.

(** Whether the metadata fetched for a name marks it as a view. *)
Definition is_view (collection_info : dict) : bool :=
  match collection_type collection_info with
  | Returns type => eq_str type "view"
  | Throws _ => false
  end.

(** Whether the metadata fetched for a name marks it as something else. *)
Definition is_not_view (collection_info : dict) : bool :=
  match collection_type collection_info with
  | Returns type => negb (eq_str type "view")
  | Throws _ => false
  end.

(** The lists logged in database-enumeration messages. *)
Fixpoint reported_databases (t : list (event message)) : list (list string) :=
  match t with
  | [] => []
  | Report _ (MDatabases dbs) :: t' => dbs :: reported_databases t'
  | _ :: t' => reported_databases t'
  end.

(** The databases the validation loop entered, in order: every iteration
    starts by listing the collections of its database, and the loop is over
    when the data sample announces itself. *)
Fixpoint visited_databases (t : list (event message)) : list string :=
  match t with
  | [] => []
  | Report _ MCheckingData :: _ => []
  | Call (CListCollectionNames db) :: t' => db :: visited_databases t'
  | _ :: t' => visited_databases t'
  end.

Definition is_sample_announcement (ev : event message) : bool :=
  match ev with
  | Report _ MCheckingData => true
  | _ => false
  end.

(** Events that are neither the entry of a database, nor an enumeration
    message, nor the line or the announcement of the data sample. *)
Definition inner (ev : event message) : Prop :=
  match ev with
  | Call (CListCollectionNames _) => False
  | Report _ (MDatabases _) | Print (MDatabases _) => False
  | Report _ MCheckingData | Print MCheckingData => False
  | _ => True
  end.

(** Events that are not enumeration messages. *)
Definition not_enumeration (ev : event message) : Prop :=
  match ev with
  | Report _ (MDatabases _) => False
  | _ => True
  end.

Definition uri_prompt : string := "Please provide your MongoDB Atlas URI: ".

Section Notions.
Context {W : Type} (drv : Driver W).

(** The [except ConnectionFailure] clause of [sanity_checks]. *)
Definition on_ConnectionFailure (verbosity : string)
    : exn -> option (prog W message unit) :=
  except_ConnectionFailure (fun ce => log (MConnectFailed ce) "error" verbosity).

(** The [try]/[except ConnectionFailure]/[finally] of [sanity_checks] around
    a body. *)
Definition guarded (verbosity : string) (body : prog W message unit)
    : prog W message unit :=
  def (try_finally (try_except body (on_ConnectionFailure verbosity))
                   (teardown drv verbosity)).


End Notions.

(** ** More deployments *)

Definition with_connect (e : exn) (d : deployment) : deployment := {|
  dep_connect := Some e;
  dep_ping := dep_ping d;
  dep_replSetGetStatus := dep_replSetGetStatus d;
  dep_databases := dep_databases d;
  dep_collections := dep_collections d;
  dep_listCollections := dep_listCollections d;
  dep_validate := dep_validate d;
  dep_indexes := dep_indexes d;
  dep_find_one := dep_find_one d;
  dep_environ := dep_environ d;
  dep_typed := dep_typed d
|}.

Definition with_ping (r : reply dict) (d : deployment) : deployment := {|
  dep_connect := dep_connect d;
  dep_ping := r;
  dep_replSetGetStatus := dep_replSetGetStatus d;
  dep_databases := dep_databases d;
  dep_collections := dep_collections d;
  dep_listCollections := dep_listCollections d;
  dep_validate := dep_validate d;
  dep_indexes := dep_indexes d;
  dep_find_one := dep_find_one d;
  dep_environ := dep_environ d;
  dep_typed := dep_typed d
|}.

Definition with_validate (f : string -> string -> reply dict) (d : deployment)
    : deployment := {|
  dep_connect := dep_connect d;
  dep_ping := dep_ping d;
  dep_replSetGetStatus := dep_replSetGetStatus d;
  dep_databases := dep_databases d;
  dep_collections := dep_collections d;
  dep_listCollections := dep_listCollections d;
  dep_validate := f;
  dep_indexes := dep_indexes d;
  dep_find_one := dep_find_one d;
  dep_environ := dep_environ d;
  dep_typed := dep_typed d
|}.

Definition with_listCollections (f : string -> string -> reply dict)
    (d : deployment) : deployment := {|
  dep_connect := dep_connect d;
  dep_ping := dep_ping d;
  dep_replSetGetStatus := dep_replSetGetStatus d;
  dep_databases := dep_databases d;
  dep_collections := dep_collections d;
  dep_listCollections := f;
  dep_validate := dep_validate d;
  dep_indexes := dep_indexes d;
  dep_find_one := dep_find_one d;
  dep_environ := dep_environ d;
  dep_typed := dep_typed d
|}.

(** A malformed endpoint: the client constructor rejects it. *)
Definition misaddressed : deployment :=
  with_connect (OtherError "InvalidURI") standalone.

(** A server that rejects the ping. *)
Definition unresponsive : deployment :=
  with_ping (Throws (OperationFailure "not authorized on admin")) standalone.

(** A server that rejects every validation. *)
Definition unvalidating : deployment :=
  with_validate (fun _ _ => Throws (OperationFailure "unauthorized")) standalone.


(** A server on which a listed name is gone when its metadata is asked for. *)
Definition racing : deployment :=
  with_listCollections
    (fun _ _ => Returns [("cursor", VDict [("firstBatch", VList [])])])
    standalone.

Definition endpoint : string := "mongodb://db.example:27017".

Definition shop (uri : string) : Database :=
  client_getitem {| client_uri := uri |} "shop".

Definition with_replSetGetStatus (r : reply dict) (d : deployment)
    : deployment := {|
  dep_connect := dep_connect d;
  dep_ping := dep_ping d;
  dep_replSetGetStatus := r;
  dep_databases := dep_databases d;
  dep_collections := dep_collections d;
  dep_listCollections := dep_listCollections d;
  dep_validate := dep_validate d;
  dep_indexes := dep_indexes d;
  dep_find_one := dep_find_one d;
  dep_environ := dep_environ d;
  dep_typed := dep_typed d
|}.


Definition with_typed (r : reply string) (d : deployment) : deployment := {|
  dep_connect := dep_connect d;
  dep_ping := dep_ping d;
  dep_replSetGetStatus := dep_replSetGetStatus d;
  dep_databases := dep_databases d;
  dep_collections := dep_collections d;
  dep_listCollections := dep_listCollections d;
  dep_validate := dep_validate d;
  dep_indexes := dep_indexes d;
  dep_find_one := dep_find_one d;
  dep_environ := dep_environ d;
  dep_typed := r
|}.

(** The status of a three-member replica set, seen from a secondary. *)
Definition secondary_status : dict :=
  [("set", VStr "rs0"); ("myState", VInt 2);
   ("members",
    VList [VDict [("name", VStr "db0.example:27017"); ("stateStr", VStr "SECONDARY")];
           VDict [("name", VStr "db1.example:27017"); ("stateStr", VStr "PRIMARY")];
           VDict [("name", VStr "db2.example:27017"); ("stateStr", VStr "SECONDARY")]]);
   ("ok", VInt 1)].

Definition replica_member : deployment :=
  with_replSetGetStatus (Returns secondary_status) standalone.


(** A server whose validation answers carry no [valid] field. *)
Definition unverdicted : deployment :=
  with_validate (fun _ _ => Returns [("ok", VInt 1)]) standalone.

(** A terminal whose input is at end of file. *)
Definition headless : deployment :=
  with_typed (Throws (OtherError "EOFError")) standalone.

(** ** Notions used in the further properties *)

(** What [p] adds to the trace satisfies [Q], from every state. *)
Definition adds {W A R} (Q : list (event A) -> Prop) (p : prog W A R) : Prop :=
  forall s, exists d, trace (snd (p s)) = trace s ++ d /\ Q d.

(** The messages among [rs] whose level passes the threshold, in order. *)
Fixpoint passing {A} (verbosity : string) (rs : list (string * A)) : list A :=
  match rs with
  | [] => []
  | (level, m) :: rs' =>
      if passes level verbosity then m :: passing verbosity rs'
      else passing verbosity rs'
  end.

(** The lines written are the logged messages that pass the threshold. *)
Definition filtered {A} (verbosity : string) (d : list (event A)) : Prop :=
  stdout d = passing verbosity (reports d).

(** A trace without its written lines: the calls and the uses of [log]. *)
Fixpoint actions {A} (t : list (event A)) : list (event A) :=
  match t with
  | [] => []
  | Print _ :: t' => actions t'
  | ev :: t' => ev :: actions t'
  end.

(** Two states that differ at most in the lines written. *)
Definition alike {W A} (s1 s2 : state W A) : Prop :=
  world s1 = world s2 /\ var_client s1 = var_client s2 /\
  actions (trace s1) = actions (trace s2).

(** Two programs that, from states alike, end the same way in states alike. *)
Definition agree {W A R} (p q : prog W A R) : Prop :=
  forall s1 s2, alike s1 s2 ->
    fst (p s1) = fst (q s2) /\ alike (snd (p s1)) (snd (q s2)).

(** Two handler tables that catch the same exceptions with handlers that
    agree. *)
Definition handlers_agree {W A R} (h1 h2 : exn -> option (prog W A R)) : Prop :=
  forall e,
    match h1 e, h2 e with
    | Some a, Some b => agree a b
    | None, None => True
    | _, _ => False
    end.

(** [repl_status['myState']] and [repl_status['members'][0]['name']], in the
    order the message of line 69 evaluates them. *)
Definition replica_fields (repl_status : dict) : reply (value * value) :=
  reply_bind (dict_getitem repl_status "myState") (fun myState =>
  reply_bind (dict_getitem repl_status "members") (fun members =>
  reply_bind (getitem_first members) (fun member =>
  reply_bind (getitem_key member "name") (fun name =>
  Returns (myState, name))))).

(** The exceptions a lookup in a fetched document can raise. *)
Definition is_lookup_error (e : exn) : bool :=
  match e with
  | KeyError _ | IndexError | TypeError => true
  | _ => false
  end.

(** * Properties *)

(** ** The reporter: what [log] writes *)

Lemma rank_error : rank "error" = Some 0%Z.
Proof. reflexivity. Qed.

Lemma rank_warning : rank "warning" = Some 1%Z.
Proof. reflexivity. Qed.

Lemma rank_info : rank "info" = Some 2%Z.
Proof. reflexivity. Qed.

Lemma level_name_rank (l : string) : level_name l <-> is_Some (rank l).
Proof.
  unfold level_name, rank, levels. split.
  - intros [-> | [-> | ->]]; eexists; reflexivity.
  - intros [z Hz].
    destruct (decide (l = "error")) as [|H1]; [tauto|].
    destruct (decide (l = "warning")) as [|H2]; [tauto|].
    destruct (decide (l = "info")) as [|H3]; [tauto|].
    rewrite !lookup_insert_ne, lookup_empty in Hz by congruence.
    discriminate.
Qed.

Lemma extend_nil {W A} (s : state W A) : extend s [] = s.
Proof. destruct s; unfold extend; simpl. rewrite app_nil_r. reflexivity. Qed.

Lemma extend_extend {W A} (s : state W A) d1 d2 :
  extend (extend s d1) d2 = extend s (d1 ++ d2).
Proof. unfold extend; simpl. rewrite app_assoc. reflexivity. Qed.

Lemma stdout_app {A} (t1 t2 : list (event A)) :
  stdout (t1 ++ t2) = stdout t1 ++ stdout t2.
Proof.
  induction t1 as [|[c|l m|m] t1 IH]; simpl; rewrite ?IH; reflexivity.
Qed.

Lemma reports_app {A} (t1 t2 : list (event A)) :
  reports (t1 ++ t2) = reports t1 ++ reports t2.
Proof.
  induction t1 as [|[c|l m|m] t1 IH]; simpl; rewrite ?IH; reflexivity.
Qed.

Lemma calls_app {A} (t1 t2 : list (event A)) :
  calls (t1 ++ t2) = calls t1 ++ calls t2.
Proof.
  induction t1 as [|[c|l m|m] t1 IH]; simpl; rewrite ?IH; reflexivity.
Qed.

(** [log] with two known level names: it ends normally and adds
    [log_effect] to the trace. *)
Lemma log_run {W A} (message : A) (level verbosity : string) (s : state W A) :
  level_name level -> level_name verbosity ->
  log message level verbosity s
  = (Normal tt, extend s (log_effect message level verbosity)).
Proof.
  intros Hl Hv.
  apply level_name_rank in Hl as [l Hl]. apply level_name_rank in Hv as [v Hv].
  unfold log, log_effect, passes, levels_getitem, bind, emit, print, emit, extend.
  unfold rank in Hl, Hv. simpl. rewrite Hv, Hl. simpl. unfold rank. rewrite Hv, Hl.
  destruct (l <=? v)%Z; simpl; rewrite <- ?app_assoc; reflexivity.
Qed.

(** [log] with an unknown threshold raises [KeyError] on it. *)
Lemma log_unknown_verbosity {W A} (message : A) (level verbosity : string)
    (s : state W A) :
  rank verbosity = None ->
  log message level verbosity s
  = (Raised (KeyError verbosity), extend s [Report level message]).
Proof.
  intros Hv. unfold log, levels_getitem, bind, emit, extend. simpl.
  unfold rank in Hv. rewrite Hv. reflexivity.
Qed.

(** [log] with a known threshold and an unknown level raises [KeyError] on
    the level. *)
Lemma log_unknown_level {W A} (message : A) (level verbosity : string)
    (s : state W A) :
  level_name verbosity -> rank level = None ->
  log message level verbosity s
  = (Raised (KeyError level), extend s [Report level message]).
Proof.
  intros Hv Hl. apply level_name_rank in Hv as [v Hv].
  unfold log, levels_getitem, bind, emit, extend. simpl.
  unfold rank in Hv, Hl. rewrite Hv, Hl. reflexivity.
Qed.

Lemma app_singleton_neq {X} (l : list X) (x : X) : l ++ [x] <> l.
Proof.
  intros H. apply (f_equal (@List.length X)) in H.
  rewrite length_app in H. simpl in H. lia.
Qed.

(** C1.  For every message, and every severity and threshold among
    ["error"], ["warning"] and ["info"], whose ranks are 0, 1 and 2, [log]
    writes the message to standard output if and only if the rank of the
    severity is at most the rank of the threshold, and writes nothing
    otherwise; so a warning under threshold ["error"] writes nothing and an
    error under threshold ["info"] is written. *)
Theorem log_emits_iff_rank {W A} (message : A) (severity threshold : string)
    (s : state W A) :
  level_name severity -> level_name threshold ->
  rank "error" = Some 0%Z /\ rank "warning" = Some 1%Z /\ rank "info" = Some 2%Z /\
  exists rs rt,
    rank severity = Some rs /\ rank threshold = Some rt /\
    let out := stdout (trace (snd (log message severity threshold s))) in
    (out = stdout (trace s) ++ [message] <-> (rs <= rt)%Z) /\
    (out = stdout (trace s) <-> ~ (rs <= rt)%Z) /\
    stdout (trace (snd (log message "warning" "error" s))) = stdout (trace s) /\
    stdout (trace (snd (log message "error" "info" s)))
    = stdout (trace s) ++ [message].
Proof.
  intros Hs Ht. repeat split; try reflexivity.
  destruct (proj1 (level_name_rank _) Hs) as [rs Hrs].
  destruct (proj1 (level_name_rank _) Ht) as [rt Hrt].
  exists rs, rt. split; [exact Hrs|]. split; [exact Hrt|].
  cbv zeta. rewrite !log_run by (unfold level_name; tauto).
  unfold extend, log_effect, passes; simpl.
  rewrite Hrs, Hrt, !stdout_app. simpl.
  destruct (Z.leb_spec rs rt) as [Hle|Hgt]; simpl;
    rewrite ?app_nil_r; repeat split; intros; try lia; try reflexivity.
  - exfalso. eapply app_singleton_neq. eassumption.
  - exfalso. eapply app_singleton_neq. symmetry. eassumption.
Qed.

Lemma log_emits_iff_rank_witness :
  stdout (trace (snd (log "disk full" "warning" "error" (start tt)))) = []
  /\ stdout (trace (snd (log "disk full" "error" "info" (start tt))))
     = ["disk full"].
Proof.
  destruct (log_emits_iff_rank (W := unit) "disk full" "warning" "error" (start tt))
    as (_ & _ & _ & rs & rt & _ & _ & _ & _ & H1 & H2).
  - unfold level_name; tauto.
  - unfold level_name; tauto.
  - split; [exact H1 | exact H2].
Defined.




(** ** Running programs step by step *)

Section Steps.
Context {W A : Type}.
Implicit Types s : state W A.
Implicit Types P : event A -> Prop.

Lemma bind_normal {R S} (m : prog W A R) (k : R -> prog W A S) s r s' :
  m s = (Normal r, s') -> bind m k s = k r s'.
Proof. intros H. unfold bind. rewrite H. reflexivity. Qed.

Lemma bind_raised {R S} (m : prog W A R) (k : R -> prog W A S) s e s' :
  m s = (Raised e, s') -> bind m k s = (Raised e, s').
Proof. intros H. unfold bind. rewrite H. reflexivity. Qed.

Lemma bind_returned {R S} (m : prog W A R) (k : R -> prog W A S) s s' :
  m s = (Returned, s') -> bind m k s = (Returned, s').
Proof. intros H. unfold bind. rewrite H. reflexivity. Qed.

Lemma bind_continued {R S} (m : prog W A R) (k : R -> prog W A S) s s' :
  m s = (Continued, s') -> bind m k s = (Continued, s').
Proof. intros H. unfold bind. rewrite H. reflexivity. Qed.

Lemma invoke_returns {R} (c : call) (f : W -> reply R * W) s r w' :
  f (world s) = (Returns r, w') ->
  invoke c f s
  = (Normal r, {| world := w'; trace := trace s ++ [Call c];
                  var_client := var_client s |}).
Proof. intros H. unfold invoke, bind, emit. simpl. rewrite H. reflexivity. Qed.

Lemma invoke_throws {R} (c : call) (f : W -> reply R * W) s e w' :
  f (world s) = (Throws e, w') ->
  invoke c f s
  = (@Raised R e, {| world := w'; trace := trace s ++ [Call c];
                     var_client := var_client s |}).
Proof. intros H. unfold invoke, bind, emit. simpl. rewrite H. reflexivity. Qed.

(** *** What a program may add to the trace *)

Lemma emits_only_silent {R} P (p : prog W A R) :
  (forall s, snd (p s) = s) -> emits_only P p.
Proof.
  intros H s. rewrite H. split; [reflexivity|].
  exists []. rewrite app_nil_r. auto.
Qed.

Lemma emits_only_ret {R} P (r : R) : emits_only P (ret r : prog W A R).
Proof. apply emits_only_silent. reflexivity. Qed.

Lemma emits_only_raise {R} P e : emits_only P (@raise W A R e).
Proof. apply emits_only_silent. reflexivity. Qed.

Lemma emits_only_return {R} P : emits_only P (@return_ W A R).
Proof. apply emits_only_silent. reflexivity. Qed.

Lemma emits_only_continue {R} P : emits_only P (@continue_ W A R).
Proof. apply emits_only_silent. reflexivity. Qed.

Lemma emits_only_of_reply {R} P (r : reply R) :
  emits_only P (of_reply r : prog W A R).
Proof. apply emits_only_silent. destruct r; reflexivity. Qed.

Lemma emits_only_load_client P : emits_only P (@load_client W A).
Proof.
  apply emits_only_silent. intros s. unfold load_client.
  destruct (var_client s); reflexivity.
Qed.

Lemma emits_only_emit P ev : P ev -> emits_only P (emit ev : prog W A unit).
Proof.
  intros H s. simpl. split; [reflexivity|]. exists [ev]. auto.
Qed.

Lemma emits_only_invoke {R} P c (f : W -> reply R * W) :
  P (Call c) -> emits_only P (invoke c f).
Proof.
  intros H s. unfold invoke, bind, emit. simpl.
  destruct (f (world s)) as [[r|e] w']; simpl;
    (split; [reflexivity|]; exists [Call c]; auto).
Qed.

Lemma emits_only_bind {R S} P (m : prog W A R) (k : R -> prog W A S) :
  emits_only P m -> (forall r, emits_only P (k r)) -> emits_only P (bind m k).
Proof.
  intros Hm Hk s. unfold bind.
  destruct (Hm s) as (Hv & d & Ht & Hd).
  destruct (m s) as [[r| | |e] s1]; simpl in *;
    try (split; [assumption|]; exists d; auto).
  destruct (Hk r s1) as (Hv' & d' & Ht' & Hd').
  split; [congruence|]. exists (d ++ d').
  rewrite Ht', Ht, app_assoc. split; [reflexivity|]. apply Forall_app; auto.
Qed.

Lemma emits_only_try_except {R} P (body : prog W A R) handler :
  emits_only P body ->
  (forall e h, handler e = Some h -> emits_only P h) ->
  emits_only P (try_except body handler).
Proof.
  intros Hb Hh s. unfold try_except.
  destruct (Hb s) as (Hv & d & Ht & Hd).
  destruct (body s) as [[r| | |e] s1]; simpl in *;
    try (split; [assumption|]; exists d; auto).
  destruct (handler e) as [h|] eqn:He; simpl;
    [|split; [assumption|]; exists d; auto].
  destruct (Hh e h He s1) as (Hv' & d' & Ht' & Hd').
  split; [congruence|]. exists (d ++ d').
  rewrite Ht', Ht, app_assoc. split; [reflexivity|]. apply Forall_app; auto.
Qed.

Lemma emits_only_for_each {X} P (xs : list X) (body : X -> prog W A unit) :
  (forall x, emits_only P (body x)) -> emits_only P (for_each xs body).
Proof.
  intros Hb. induction xs as [|x xs IH]; [apply emits_only_ret|].
  intros s. simpl.
  destruct (Hb x s) as (Hv & d & Ht & Hd).
  destruct (body x s) as [[r| | |e] s1]; simpl in *;
    try (split; [assumption|]; exists d; auto);
    destruct (IH s1) as (Hv' & d' & Ht' & Hd');
    (split; [congruence|]); exists (d ++ d');
    rewrite Ht', Ht, app_assoc; (split; [reflexivity|]); apply Forall_app; auto.
Qed.

Lemma emits_only_if {R} P (b : bool) (p q : prog W A R) :
  emits_only P p -> emits_only P q -> emits_only P (if b then p else q).
Proof. destruct b; auto. Qed.

Lemma emits_only_log P (m : A) (level verbosity : string) :
  P (Report level m) -> P (Print m) ->
  emits_only P (log m level verbosity : prog W A unit).
Proof.
  intros Hr Hp. unfold log, print.
  apply emits_only_bind; [apply emits_only_emit; assumption|]. intros _.
  apply emits_only_bind; [apply emits_only_of_reply|]. intros v.
  apply emits_only_bind; [apply emits_only_of_reply|]. intros l.
  apply emits_only_if; [apply emits_only_emit; assumption|apply emits_only_ret].
Qed.

Lemma emits_only_weaken {R} (P Q : event A -> Prop) (p : prog W A R) :
  (forall ev, P ev -> Q ev) -> emits_only P p -> emits_only Q p.
Proof.
  intros HPQ Hp s. destruct (Hp s) as (Hv & d & Ht & Hd).
  split; [assumption|]. exists d. split; [assumption|].
  eapply Forall_impl; eauto.
Qed.
End Steps.

(** ** The checker: what [sanity_checks] does *)

Section CheckerFacts.
Context {W : Type} (drv : Driver W).
Implicit Types s : state W message.

Lemma except_OperationFailure_emits {R} P (h : exn -> prog W message R) e k :
  (forall e, emits_only P (h e)) ->
  except_OperationFailure h e = Some k -> emits_only P k.
Proof.
  unfold except_OperationFailure. intros Hh Hk.
  destruct (is_OperationFailure e); [|discriminate].
  injection Hk as <-. apply Hh.
Qed.

Lemma except_ConnectionFailure_emits {R} P (h : exn -> prog W message R) e k :
  (forall e, emits_only P (h e)) ->
  except_ConnectionFailure h e = Some k -> emits_only P k.
Proof.
  unfold except_ConnectionFailure. intros Hh Hk.
  destruct (is_ConnectionFailure e); [|discriminate].
  injection Hk as <-. apply Hh.
Qed.

(** Proves [emits_only P p] for a program built from the combinators, once
    [P] is decided on each call and message by [tac]. *)
Ltac emits_with tac :=
  repeat first
    [ progress intros
    | apply emits_only_log
    | apply emits_only_invoke
    | apply emits_only_bind
    | apply emits_only_try_except
    | eapply except_OperationFailure_emits; [|eassumption]
    | eapply except_ConnectionFailure_emits; [|eassumption]
    | apply emits_only_for_each
    | apply emits_only_if
    | apply emits_only_emit
    | apply emits_only_of_reply
    | apply emits_only_load_client
    | apply emits_only_ret
    | apply emits_only_return
    | apply emits_only_continue
    | apply emits_only_raise
    | match goal with
      | |- emits_only _ (match ?x with _ => _ end) => destruct x
      end
    | tac ].

Lemma checks_never_close client verbosity :
  emits_only not_close (checks drv client verbosity).
Proof.
  unfold checks, ping_check, replica_set_check, enumerate_and_validate,
    sample_data, validate_database, validate_collection,
    validate_collection_body.
  emits_with ltac:(unfold not_close; discriminate).
Qed.

Lemma teardown_run verbosity s c :
  var_client s = Some c -> level_name verbosity ->
  teardown drv verbosity s
  = (Normal tt,
     {| world := close drv c (world s);
        trace := trace s ++ Call CClose
                   :: log_effect MConnectionClosed "info" verbosity;
        var_client := var_client s |}).
Proof.
  intros Hc Hv. unfold teardown.
  erewrite bind_normal by (unfold load_client; rewrite Hc; reflexivity).
  erewrite bind_normal by (apply invoke_returns; reflexivity).
  rewrite log_run by (unfold level_name; tauto).
  unfold extend; simpl. rewrite <- app_assoc. reflexivity.
Qed.

Lemma teardown_unbound verbosity s :
  var_client s = None ->
  teardown drv verbosity s = (Raised (UnboundLocalError "client"), s).
Proof.
  intros Hc. unfold teardown, bind, load_client. rewrite Hc. reflexivity.
Qed.

(** When the client is built, the connection is closed exactly once, last,
    and the closing message is handed to [log] after it. *)
Lemma sanity_checks_closes_once uri verbosity s c w1 :
  MongoClient drv uri (world s) = (Returns c, w1) ->
  level_name verbosity ->
  exists d r s',
    sanity_checks drv uri verbosity s = (r, s') /\
    trace s' = trace s ++ d ++ Call CClose
                 :: log_effect MConnectionClosed "info" verbosity /\
    ~ In CClose (calls d).
Proof.
  intros Hconn Hv.
  set (s2 := {| world := w1; trace := trace s ++ [Call (CMongoClient uri)];
                var_client := Some c |}).
  set (rest := log MConnected "info" verbosity >>
               let* client := load_client in checks drv client verbosity).
  assert (Hrest : emits_only not_close
            (try_except rest (on_ConnectionFailure verbosity))).
  { unfold rest, on_ConnectionFailure.
    emits_with ltac:(first [apply checks_never_close
                           | unfold not_close; discriminate]). }
  assert (Hbody : try_except (checklist drv uri verbosity)
                    (on_ConnectionFailure verbosity) s
                  = try_except rest (on_ConnectionFailure verbosity) s2).
  { unfold try_except, checklist.
    erewrite bind_normal by (apply invoke_returns; eassumption).
    erewrite bind_normal by reflexivity. reflexivity. }
  destruct (Hrest s2) as (Hvar & d & Ht & Hd).
  unfold sanity_checks, def, try_finally.
  fold (@on_ConnectionFailure W verbosity). rewrite Hbody.
  destruct (try_except rest (on_ConnectionFailure verbosity) s2) as [r s3].
  simpl in Hvar, Ht.
  rewrite (teardown_run verbosity s3 c) by assumption.
  exists (Call (CMongoClient uri) :: d).
  assert (Hnc : ~ In CClose (calls (Call (CMongoClient uri) :: d))).
  { simpl. intros [H|H]; [discriminate|].
    clear - Hd H. induction Hd as [|ev d Hev Hd IH]; [contradiction|].
    destruct ev as [c0| |]; simpl in H; auto.
    destruct H as [->|H]; auto. }
  destruct r; (eexists; eexists; split; [reflexivity|]; split; [|exact Hnc]);
    simpl; rewrite Ht; unfold s2; simpl; rewrite <- !app_assoc; reflexivity.
Qed.

Arguments log : simpl never.
Arguments invoke : simpl never.

Ltac level_names :=
  match goal with
  | |- level_name _ => first [assumption | unfold level_name; tauto]
  end.

(** One step of a run: the next call is answered as a hypothesis says, or
    the next message is logged. *)
Ltac run_step :=
  first
    [ erewrite invoke_returns by eassumption
    | erewrite invoke_throws by eassumption
    | rewrite log_run by level_names ];
  cbn [fst snd world trace var_client extend except_OperationFailure
       except_ConnectionFailure is_OperationFailure is_ConnectionFailure
       on_ConnectionFailure return_ ret raise of_reply first_name].

Lemma reports_log_effect {A} (m : A) level verbosity :
  reports (log_effect m level verbosity) = [(level, m)].
Proof. unfold log_effect. destruct (passes _ _); reflexivity. Qed.

Lemma calls_log_effect {A} (m : A) level verbosity :
  calls (log_effect m level verbosity) = [].
Proof. unfold log_effect. destruct (passes _ _); reflexivity. Qed.

Lemma stdout_log_effect {A} (m : A) level verbosity :
  stdout (log_effect m level verbosity)
  = if passes level verbosity then [m] else [].
Proof. unfold log_effect. destruct (passes _ _); reflexivity. Qed.

Lemma passes_error verbosity : level_name verbosity -> passes "error" verbosity = true.
Proof. intros [-> | [-> | ->]]; reflexivity. Qed.

Lemma passes_info verbosity : passes verbosity "info" = true <-> level_name verbosity.
Proof.
  split.
  - unfold passes. intros H. apply level_name_rank.
    destruct (rank verbosity); [eauto|].
    destruct (rank "info"); discriminate.
  - intros [-> | [-> | ->]]; reflexivity.
Qed.

(** C3.  When the ping command fails (the server rejects it, or the
    connection fails under it), [sanity_checks] reports an error and makes
    none of the later checks: after the ping it calls nothing but [close],
    it reports no replica-set, enumeration, validation or sampling message,
    and the connection-closed message is still reported, last.  The error
    line is written whatever the threshold. *)
Theorem ping_failure_is_fatal uri verbosity s c w1 e w2 :
  MongoClient drv uri (world s) = (Returns c, w1) ->
  command_ping drv c w1 = (Throws e, w2) ->
  is_OperationFailure e || is_ConnectionFailure e = true ->
  level_name verbosity ->
  exists s',
    sanity_checks drv uri verbosity s = (Normal tt, s') /\
    trace s'
    = trace s ++ Call (CMongoClient uri) :: log_effect MConnected "info" verbosity
        ++ Call CPing :: log_effect (ping_error e) "error" verbosity
        ++ Call CClose :: log_effect MConnectionClosed "info" verbosity /\
    calls (trace s') = calls (trace s) ++ [CMongoClient uri; CPing; CClose] /\
    reports (trace s')
    = reports (trace s)
      ++ [("info", MConnected); ("error", ping_error e);
          ("info", MConnectionClosed)] /\
    later_check (ping_error e) = false /\
    In (ping_error e) (stdout (trace s')).
Proof.
  intros Hconn Hping He Hv.
  assert (Hrun : sanity_checks drv uri verbosity s
    = (Normal tt,
       {| world := close drv c w2;
          trace := trace s ++ Call (CMongoClient uri)
                     :: log_effect MConnected "info" verbosity
                     ++ Call CPing :: log_effect (ping_error e) "error" verbosity
                     ++ Call CClose :: log_effect MConnectionClosed "info" verbosity;
          var_client := Some c |})).
  { unfold sanity_checks, def, try_finally, try_except, checklist, checks,
      ping_check, try_except, bind, store_client, load_client, ping_error.
    run_step. run_step. run_step.
    destruct e; try discriminate He;
      cbn [except_OperationFailure except_ConnectionFailure
           is_OperationFailure is_ConnectionFailure];
      run_step; erewrite teardown_run by (first [reflexivity | level_names]);
      unfold extend; cbn [world trace var_client];
      repeat (rewrite <- ?app_assoc; cbn [app]); reflexivity. }
  eexists. split; [exact Hrun|]. cbn [trace].
  split; [reflexivity|].
  split; [|split; [|split]].
  - rewrite !calls_app. cbn [calls]. rewrite !calls_app. cbn [calls].
    rewrite !calls_app. cbn [calls]. rewrite !calls_log_effect. reflexivity.
  - rewrite !reports_app. cbn [reports]. rewrite !reports_app. cbn [reports].
    rewrite !reports_app. cbn [reports]. rewrite !reports_log_effect. reflexivity.
  - unfold ping_error. destruct (is_OperationFailure e); reflexivity.
  - rewrite stdout_app. apply in_or_app. right. cbn [stdout].
    rewrite stdout_app. apply in_or_app. right. cbn [stdout].
    rewrite stdout_app. apply in_or_app. left.
    rewrite stdout_log_effect, passes_error by assumption. left. reflexivity.
Qed.

Ltac norm_trace :=
  unfold extend; cbn [world trace var_client];
  repeat (rewrite <- ?app_assoc; cbn [app]).

Lemma sanity_checks_guarded uri verbosity :
  sanity_checks drv uri verbosity = guarded drv verbosity (checklist drv uri verbosity).
Proof. reflexivity. Qed.



(** C2 (where the code departs from it).  When [MongoClient(uri)] itself
    raises, [client] is never bound: the [finally] block fails on
    [client.close()] with [UnboundLocalError], so nothing is closed, no
    connection-closed message is logged, and the run ends with that
    exception in place of the original one. *)
Theorem sanity_checks_unbound_client uri verbosity s e w1 :
  MongoClient drv uri (world s) = (Throws e, w1) ->
  var_client s = None ->
  level_name verbosity ->
  exists s',
    sanity_checks drv uri verbosity s
    = (Raised (UnboundLocalError "client"), s') /\
    calls (trace s') = calls (trace s) ++ [CMongoClient uri] /\
    reports (trace s')
    = reports (trace s)
      ++ (if is_ConnectionFailure e then [("error", MConnectFailed e)] else []).
Proof.
  intros Hconn Hc Hv.
  unfold sanity_checks, def, try_finally, try_except, checklist, bind.
  run_step. unfold except_ConnectionFailure.
  destruct (is_ConnectionFailure e) eqn:He.
  - run_step. rewrite teardown_unbound by exact Hc.
    eexists. split; [reflexivity|]. norm_trace.
    rewrite calls_app, reports_app. cbn [app calls reports].
    rewrite calls_log_effect, reports_log_effect. auto.
  - rewrite teardown_unbound by exact Hc.
    eexists. split; [reflexivity|]. cbn [trace].
    rewrite calls_app, reports_app. cbn [calls reports].
    rewrite app_nil_r. auto.
Qed.


(** *** The loop over the collections *)

(** C5.  For a collection name whose metadata marks it as a view, the loop
    body makes the one metadata call, logs exactly one message for the
    name, a warning, and goes to the next name: it neither validates the
    name nor lists its indexes, and the rest of the names are processed
    from there. *)
Theorem view_is_skipped_with_one_warning db verbosity name rest s info w1 :
  command_listCollections drv db name (world s) = (Returns info, w1) ->
  is_view info = true ->
  level_name verbosity ->
  let added :=
    Call (CListCollections (db_name db) name)
      :: log_effect (MSkippingView name) "warning" verbosity in
  let s1 :=
    {| world := w1; trace := trace s ++ added; var_client := var_client s |} in
  validate_collection drv db verbosity name s = (Continued, s1) /\
  for_each (name :: rest) (validate_collection drv db verbosity) s
  = for_each rest (validate_collection drv db verbosity) s1 /\
  reports added = [("warning", MSkippingView name)] /\
  calls added = [CListCollections (db_name db) name].
Proof.
  intros Hinfo Hview Hv added s1.
  assert (Hrun : validate_collection drv db verbosity name s = (Continued, s1)).
  { unfold validate_collection, validate_collection_body, try_except, bind.
    run_step. unfold is_view in Hview.
    destruct (collection_type info) as [type|e]; [|discriminate].
    cbn [of_reply ret]. rewrite Hview. run_step.
    unfold continue_, s1, added. norm_trace. reflexivity. }
  split; [exact Hrun|]. split.
  - cbn [for_each]. rewrite Hrun. reflexivity.
  - unfold added. cbn [reports calls].
    rewrite reports_log_effect, calls_log_effect. auto.
Qed.



(** *** The data sample *)

Lemma document_is_truthy (doc : document) :
  truthy (VDict (document_dict doc)) = true.
Proof. reflexivity. Qed.

(** C6.  The data sample announces itself, then takes the first name of the
    enumerated list and the first collection name of that database and
    fetches one document from it: a document found is logged at info with
    its contents, no document is logged as a warning; with no database, or
    no collection in the first database, the step raises [IndexError] and
    logs nothing more. *)
Theorem sample_data_cases client verbosity s :
  level_name verbosity ->
  let s0 := extend s (log_effect MCheckingData "info" verbosity) in
  sample_data drv client verbosity [] s = (Raised IndexError, s0) /\
  (forall db dbs w1,
     list_collection_names drv (client_getitem client db) (world s)
     = (Returns [], w1) ->
     sample_data drv client verbosity (db :: dbs) s
     = (Raised IndexError,
        {| world := w1; trace := trace s0 ++ [Call (CListCollectionNames db)];
           var_client := var_client s |})) /\
  (forall db dbs name names w1 doc w2,
     list_collection_names drv (client_getitem client db) (world s)
     = (Returns (name :: names), w1) ->
     find_one drv (db_getitem (client_getitem client db) name) w1
     = (Returns (Some doc), w2) ->
     sample_data drv client verbosity (db :: dbs) s
     = (Normal tt,
        {| world := w2;
           trace := trace s0 ++ Call (CListCollectionNames db)
                      :: Call (CFindOne db name)
                      :: log_effect (MSampleDocument name doc) "info" verbosity;
           var_client := var_client s |})) /\
  (forall db dbs name names w1 w2,
     list_collection_names drv (client_getitem client db) (world s)
     = (Returns (name :: names), w1) ->
     find_one drv (db_getitem (client_getitem client db) name) w1
     = (Returns None, w2) ->
     sample_data drv client verbosity (db :: dbs) s
     = (Normal tt,
        {| world := w2;
           trace := trace s0 ++ Call (CListCollectionNames db)
                      :: Call (CFindOne db name)
                      :: log_effect (MNoDocuments name) "warning" verbosity;
           var_client := var_client s |})).
Proof.
  intros Hv s0. unfold sample_data, bind, s0.
  split; [|split; [|split]].
  - run_step. reflexivity.
  - intros db dbs w1 Hl. run_step. run_step. norm_trace. reflexivity.
  - intros db dbs name names w1 doc w2 Hl Hf.
    run_step. run_step. run_step. rewrite document_is_truthy. run_step.
    norm_trace. reflexivity.
  - intros db dbs name names w1 w2 Hl Hf.
    run_step. run_step. run_step. run_step. norm_trace. reflexivity.
Qed.

(** *** The enumeration and the loop over the databases *)

Lemma reported_databases_app t1 t2 :
  reported_databases (t1 ++ t2) = reported_databases t1 ++ reported_databases t2.
Proof.
  induction t1 as [|[c0|l m|m] t1 IH]; cbn [app reported_databases]; auto.
  destruct m; cbn [app]; rewrite ?IH; reflexivity.
Qed.

Lemma visited_databases_app t1 t2 :
  Forall (fun ev => is_sample_announcement ev = false) t1 ->
  visited_databases (t1 ++ t2) = visited_databases t1 ++ visited_databases t2.
Proof.
  induction 1 as [|ev t1 Hev Ht1 IH]; [reflexivity|].
  destruct ev as [c0|l m|m]; cbn [app visited_databases].
  - destruct c0; cbn [app]; rewrite ?IH; reflexivity.
  - destruct m; try exact IH. discriminate Hev.
  - exact IH.
Qed.

Lemma inner_trace d :
  Forall inner d ->
  visited_databases d = [] /\ reported_databases d = [] /\
  Forall (fun ev => is_sample_announcement ev = false) d.
Proof.
  induction 1 as [|ev d Hev Hd (IH1 & IH2 & IH3)]; [auto|].
  destruct ev as [c0|l m|m].
  - destruct c0; try contradiction; cbn [visited_databases reported_databases];
      auto.
  - destruct m; try contradiction; cbn [visited_databases reported_databases];
      auto.
  - cbn [visited_databases reported_databases]; auto.
Qed.

Lemma not_enumeration_trace d :
  Forall not_enumeration d -> reported_databases d = [].
Proof.
  induction 1 as [|ev d Hev Hd IH]; [reflexivity|].
  destruct ev as [c0|l m|m]; cbn [reported_databases]; auto.
  destruct m; try contradiction; auto.
Qed.

Lemma validate_collection_inner db verbosity name :
  emits_only inner (validate_collection drv db verbosity name).
Proof.
  unfold validate_collection, validate_collection_body.
  emits_with ltac:(exact I).
Qed.

(** One iteration of the loop over the databases: it enters [db], and adds
    nothing else the enumeration or the data sample would add. *)
Lemma validate_database_trace client verbosity db s :
  exists d,
    trace (snd (validate_database drv client verbosity db s))
    = trace s ++ Call (CListCollectionNames db) :: d /\
    Forall inner d.
Proof.
  unfold validate_database.
  destruct (list_collection_names drv (client_getitem client db) (world s))
    as [[names|e] w1] eqn:Hl.
  - erewrite bind_normal by (apply invoke_returns; exact Hl).
    assert (Hrest : emits_only inner
              (log (MValidatingDatabase db) "info" verbosity >>
               for_each names
                 (validate_collection drv (client_getitem client db) verbosity))).
    { emits_with ltac:(first [apply validate_collection_inner | exact I]). }
    match goal with
    | |- context [snd (_ ?st)] => destruct (Hrest st) as (_ & d & Ht & Hd)
    end.
    exists d. rewrite Ht. cbn [trace]. rewrite <- app_assoc. auto.
  - erewrite bind_raised by (apply invoke_throws; exact Hl).
    exists []. cbn [snd trace]. auto.
Qed.

(** The loop over the databases enters the names of its list in order; it
    enters all of them when it runs to its end. *)
Lemma database_loop_trace client verbosity dbs s :
  exists d,
    trace (snd (for_each dbs (validate_database drv client verbosity) s))
    = trace s ++ d /\
    reported_databases d = [] /\
    Forall (fun ev => is_sample_announcement ev = false) d /\
    visited_databases d `prefix_of` dbs /\
    (fst (for_each dbs (validate_database drv client verbosity) s) = Normal tt ->
     visited_databases d = dbs).
Proof.
  revert s. induction dbs as [|db dbs IH]; intros s.
  - exists []. cbn [for_each ret snd fst]. rewrite app_nil_r.
    repeat split; auto; try apply prefix_nil.
  - destruct (validate_database_trace client verbosity db s) as (d1 & Ht1 & Hd1).
    destruct (inner_trace d1 Hd1) as (Hv1 & Hr1 & Ha1).
    assert (Hstop :
      trace (snd (validate_database drv client verbosity db s))
      = trace s ++ Call (CListCollectionNames db) :: d1 /\
      reported_databases (Call (CListCollectionNames db) :: d1) = [] /\
      Forall (fun ev => is_sample_announcement ev = false)
             (Call (CListCollectionNames db) :: d1) /\
      visited_databases (Call (CListCollectionNames db) :: d1)
        `prefix_of` db :: dbs).
    { repeat split; auto. cbn [visited_databases]. rewrite Hv1.
      apply prefix_cons, prefix_nil. }
    cbn [for_each].
    destruct (validate_database drv client verbosity db s) as [r1 s1].
    cbn [snd] in Ht1, Hstop.
    assert (Hgo :
      exists d,
        trace (snd (for_each dbs (validate_database drv client verbosity) s1))
        = trace s ++ d /\
        reported_databases d = [] /\
        Forall (fun ev => is_sample_announcement ev = false) d /\
        visited_databases d `prefix_of` db :: dbs /\
        (fst (for_each dbs (validate_database drv client verbosity) s1)
         = Normal tt -> visited_databases d = db :: dbs)).
    { destruct (IH s1) as (d2 & Ht2 & Hr2 & Ha2 & Hp2 & Hn2).
      exists ((Call (CListCollectionNames db) :: d1) ++ d2).
      rewrite Ht2, Ht1, <- app_assoc.
      split; [reflexivity|].
      split; [rewrite reported_databases_app; cbn [reported_databases];
              rewrite Hr1, Hr2; reflexivity|].
      split; [apply Forall_app; split; [constructor; auto | assumption]|].
      rewrite visited_databases_app by (constructor; auto).
      cbn [visited_databases]. rewrite Hv1. cbn [app].
      split; [apply prefix_cons; assumption|].
      intros Hn. rewrite (Hn2 Hn). reflexivity. }
    destruct r1 as [[]| | |e]; cbn [snd fst]; try exact Hgo;
      (eexists; split; [exact Ht1|]);
      destruct Hstop as (_ & H2 & H3 & H4);
      (split; [exact H2|]); (split; [exact H3|]); (split; [exact H4|]);
      discriminate.
Qed.

Lemma no_announcement_in d l :
  Forall (fun ev => is_sample_announcement ev = false) d ->
  ~ In (Report l MCheckingData) d.
Proof.
  intros Hd Hin. rewrite List.Forall_forall in Hd.
  apply Hd in Hin. discriminate Hin.
Qed.

Lemma sample_data_trace client verbosity dbs s :
  level_name verbosity ->
  exists d,
    trace (snd (sample_data drv client verbosity dbs s))
    = trace s ++ Report "info" MCheckingData :: d /\
    Forall not_enumeration d.
Proof.
  intros Hv. unfold sample_data.
  erewrite bind_normal by (apply log_run; level_names).
  match goal with
  | |- context [snd (?p (extend s ?e))] =>
      assert (Hrest : emits_only not_enumeration p)
  end.
  { emits_with ltac:(exact I). }
  match goal with
  | |- context [snd (?p (extend s ?e))] =>
      destruct (Hrest (extend s e)) as (_ & d & Ht & Hd)
  end.
  rewrite Ht. cbn [extend trace]. unfold log_effect at 1.
  rewrite <- app_assoc. cbn [app].
  eexists. split; [reflexivity|].
  destruct (passes "info" verbosity); cbn [app]; auto.
  constructor; [exact I | assumption].
Qed.

(** C8.  In every run that reaches the enumeration, the list logged in the
    database-enumeration message and the list the validation loop ranges
    over are the one list [list_database_names] returned: after the message
    the run is the loop over that list, followed by the data sample.  The
    message is logged once; the loop enters the names of the list in order,
    and has entered all of them whenever it runs to its end (the data sample
    is announced). *)
Theorem enumeration_drives_the_loop client verbosity s dbs w1 :
  list_database_names drv client (world s) = (Returns dbs, w1) ->
  level_name verbosity ->
  let s2 :=
    {| world := w1;
       trace := trace s ++ Call CListDatabaseNames
                  :: log_effect (MDatabases dbs) "info" verbosity;
       var_client := var_client s |} in
  enumerate_and_validate drv client verbosity s
  = (for_each dbs (validate_database drv client verbosity) >>
     sample_data drv client verbosity dbs) s2 /\
  exists d,
    trace (snd (enumerate_and_validate drv client verbosity s)) = trace s ++ d /\
    reported_databases d = [dbs] /\
    visited_databases d `prefix_of` dbs /\
    ((exists l, In (Report l MCheckingData) d) -> visited_databases d = dbs).
Proof.
  intros Hl Hv s2.
  assert (Hrun : enumerate_and_validate drv client verbosity s
                 = (for_each dbs (validate_database drv client verbosity) >>
                    sample_data drv client verbosity dbs) s2).
  { unfold enumerate_and_validate.
    erewrite bind_normal by (apply invoke_returns; exact Hl).
    erewrite bind_normal by (apply log_run; level_names).
    unfold s2. norm_trace. reflexivity. }
  split; [exact Hrun|]. rewrite Hrun.
  set (head := Call CListDatabaseNames
                 :: log_effect (MDatabases dbs) "info" verbosity).
  assert (Hhead : reported_databases head = [dbs] /\
                  visited_databases head = [] /\
                  Forall (fun ev => is_sample_announcement ev = false) head).
  { unfold head, log_effect.
    destruct (passes "info" verbosity); cbn; repeat split; repeat constructor. }
  destruct Hhead as (Hh1 & Hh2 & Hh3).
  destruct (database_loop_trace client verbosity dbs s2)
    as (d2 & Ht2 & Hr2 & Ha2 & Hp2 & Hn2).
  unfold bind.
  destruct (for_each dbs (validate_database drv client verbosity) s2)
    as [r s3] eqn:Hloop.
  cbn [snd fst] in Ht2, Hn2.
  assert (Hstop :
    trace s3 = trace s ++ head ++ d2 /\
    reported_databases (head ++ d2) = [dbs] /\
    visited_databases (head ++ d2) `prefix_of` dbs /\
    ((exists l, In (Report l MCheckingData) (head ++ d2)) ->
     visited_databases (head ++ d2) = dbs)).
  { split; [rewrite Ht2; unfold s2; cbn [trace]; rewrite <- app_assoc;
            reflexivity|].
    split; [rewrite reported_databases_app, Hh1, Hr2; reflexivity|].
    rewrite visited_databases_app, Hh2 by assumption. cbn [app].
    split; [assumption|].
    intros (l & Hin). exfalso.
    apply (no_announcement_in (head ++ d2) l); [|assumption].
    apply Forall_app; auto. }
  destruct r as [[]| | |e]; cbn [snd];
    try (exists (head ++ d2); exact Hstop).
  destruct (sample_data_trace client verbosity dbs s3 Hv) as (d3 & Ht3 & Hd3).
  exists (head ++ d2 ++ Report "info" MCheckingData :: d3).
  destruct Hstop as (Hs1 & _).
  split; [rewrite Ht3, Hs1, <- !app_assoc; reflexivity|].
  split.
  - rewrite !reported_databases_app, Hh1, Hr2. cbn [reported_databases app].
    rewrite (not_enumeration_trace d3 Hd3). reflexivity.
  - rewrite !visited_databases_app, Hh2 by assumption.
    cbn [visited_databases app]. rewrite app_nil_r.
    rewrite (Hn2 eq_refl). split; [reflexivity | auto].
Qed.

(** *** The command line *)

End CheckerFacts.

(** ** Runs on concrete deployments *)

Lemma level_name_error : level_name "error".
Proof. unfold level_name; tauto. Qed.

Lemma level_name_warning : level_name "warning".
Proof. unfold level_name; tauto. Qed.

Lemma level_name_info : level_name "info".
Proof. unfold level_name; tauto. Qed.

Lemma sanity_checks_unbound_client_witness :
  exists s',
    sanity_checks fixed_driver "http://db.example:27017" "info"
      (start misaddressed)
    = (Raised (UnboundLocalError "client"), s') /\
    calls (trace s') = [CMongoClient "http://db.example:27017"] /\
    reports (trace s') = [].
Proof.
  destruct (sanity_checks_unbound_client fixed_driver
              "http://db.example:27017" "info" (start misaddressed)
              (OtherError "InvalidURI") misaddressed
              eq_refl eq_refl level_name_info)
    as (s' & Hrun & Hcalls & Hreports).
  exists s'. split; [exact Hrun|]. split; [exact Hcalls | exact Hreports].
Defined.

Lemma ping_failure_is_fatal_witness :
  exists s',
    sanity_checks fixed_driver endpoint "warning" (start unresponsive)
    = (Normal tt, s') /\
    calls (trace s') = [CMongoClient endpoint; CPing; CClose] /\
    reports (trace s')
    = [("info", MConnected);
       ("error", MPingFailed (OperationFailure "not authorized on admin"));
       ("info", MConnectionClosed)].
Proof.
  destruct (ping_failure_is_fatal fixed_driver endpoint "warning"
              (start unresponsive) {| client_uri := endpoint |} unresponsive
              (OperationFailure "not authorized on admin") unresponsive
              eq_refl eq_refl eq_refl level_name_warning)
    as (s' & Hrun & _ & Hcalls & Hreports & _).
  exists s'. split; [exact Hrun|]. split; [exact Hcalls | exact Hreports].
Defined.


Lemma view_is_skipped_with_one_warning_witness :
  validate_collection fixed_driver (shop endpoint) "info" "recent"
    (start standalone)
  = (Continued,
     {| world := standalone;
        trace := Call (CListCollections "shop" "recent")
                   :: log_effect (MSkippingView "recent") "warning" "info";
        var_client := None |}).
Proof.
  destruct (view_is_skipped_with_one_warning fixed_driver (shop endpoint)
              "info" "recent" [] (start standalone)
              (collection_info "recent" "view") standalone
              eq_refl eq_refl level_name_info)
    as (Hrun & _).
  exact Hrun.
Defined.




Lemma sample_data_cases_witness :
  sample_data fixed_driver {| client_uri := endpoint |} "info" []
    (start standalone)
  = (Raised IndexError,
     extend (start standalone) (log_effect MCheckingData "info" "info")) /\
  sample_data fixed_driver {| client_uri := endpoint |} "info" ["shop"]
    (start standalone)
  = (Normal tt,
     {| world := standalone;
        trace := (log_effect MCheckingData "info" "info")
                   ++ Call (CListCollectionNames "shop")
                   :: Call (CFindOne "shop" "orders")
                   :: log_effect
                        (MSampleDocument "orders"
                           {| doc_id := VInt 1;
                              doc_fields := [("total", VInt 30)] |})
                        "info" "info";
        var_client := None |}).
Proof.
  destruct (sample_data_cases fixed_driver {| client_uri := endpoint |} "info"
              (start standalone) level_name_info)
    as (Hnone & _ & Hfound & _).
  split; [exact Hnone|].
  exact (Hfound "shop" [] "orders" ["recent"] standalone
           {| doc_id := VInt 1; doc_fields := [("total", VInt 30)] |}
           standalone eq_refl eq_refl).
Defined.

Lemma enumeration_drives_the_loop_witness :
  exists d,
    trace (snd (enumerate_and_validate fixed_driver {| client_uri := endpoint |}
                  "info" (start standalone)))
    = d /\
    reported_databases d = [["shop"]] /\
    visited_databases d `prefix_of` ["shop"].
Proof.
  destruct (enumeration_drives_the_loop fixed_driver
              {| client_uri := endpoint |} "info" (start standalone)
              ["shop"] standalone eq_refl level_name_info)
    as (_ & d & Ht & Hr & Hp & _).
  exists d. split; [exact Ht|]. split; [exact Hr | exact Hp].
Defined.


(** The standalone server, end to end: the replica-set warning, then the
    enumeration, the validation, the sample and the teardown. *)
Example standalone_run :
  let r := sanity_checks fixed_driver endpoint "warning" (start standalone) in
  fst r = Normal tt /\
  stdout (trace (snd r))
  = [MReplicaSetUnavailable (OperationFailure "not running with --replSet");
     MSkippingView "recent"] /\
  calls (trace (snd r))
  = [CMongoClient endpoint; CPing; CReplSetGetStatus; CListDatabaseNames;
     CListCollectionNames "shop"; CListCollections "shop" "orders";
     CValidate "shop" "orders"; CIndexInformation "shop" "orders";
     CListCollections "shop" "recent"; CListCollectionNames "shop";
     CFindOne "shop" "orders"; CClose].
Proof. vm_compute. repeat split. Qed.

(** * Further properties *)

(** ** What a program adds to the trace, as a whole *)

Section Adds.
Context {W A : Type} (Q : list (event A) -> Prop).
Hypothesis Q_nil : Q [].
Hypothesis Q_app : forall d1 d2, Q d1 -> Q d2 -> Q (d1 ++ d2).
Implicit Types s : state W A.

Lemma adds_silent {R} (p : prog W A R) :
  (forall s, trace (snd (p s)) = trace s) -> adds Q p.
Proof. intros H s. exists []. rewrite H, app_nil_r. auto. Qed.

Lemma adds_ret {R} (r : R) : adds Q (ret r : prog W A R).
Proof. apply adds_silent. reflexivity. Qed.

Lemma adds_raise {R} e : adds Q (@raise W A R e).
Proof. apply adds_silent. reflexivity. Qed.

Lemma adds_return {R} : adds Q (@return_ W A R).
Proof. apply adds_silent. reflexivity. Qed.

Lemma adds_continue {R} : adds Q (@continue_ W A R).
Proof. apply adds_silent. reflexivity. Qed.

Lemma adds_of_reply {R} (r : reply R) : adds Q (of_reply r : prog W A R).
Proof. apply adds_silent. destruct r; reflexivity. Qed.

Lemma adds_load_client : adds Q (@load_client W A).
Proof.
  apply adds_silent. intros s. unfold load_client.
  destruct (var_client s); reflexivity.
Qed.

Lemma adds_store_client c : adds Q (@store_client W A c).
Proof. apply adds_silent. reflexivity. Qed.

Lemma adds_invoke {R} c (f : W -> reply R * W) :
  Q [Call c] -> adds Q (invoke c f).
Proof.
  intros H s. unfold invoke, bind, emit. simpl.
  destruct (f (world s)) as [[r|e] w']; simpl; exists [Call c]; auto.
Qed.

Lemma adds_bind {R S} (m : prog W A R) (k : R -> prog W A S) :
  adds Q m -> (forall r, adds Q (k r)) -> adds Q (bind m k).
Proof.
  intros Hm Hk s. unfold bind.
  destruct (Hm s) as (d & Ht & Hd).
  destruct (m s) as [[r| | |e] s1]; simpl in *; try (exists d; split; assumption).
  destruct (Hk r s1) as (d' & Ht' & Hd').
  exists (d ++ d'). rewrite Ht', Ht, app_assoc. auto.
Qed.

Lemma adds_try_except {R} (body : prog W A R) handler :
  adds Q body ->
  (forall e h, handler e = Some h -> adds Q h) ->
  adds Q (try_except body handler).
Proof.
  intros Hb Hh s. unfold try_except.
  destruct (Hb s) as (d & Ht & Hd).
  destruct (body s) as [[r| | |e] s1]; simpl in *; try (exists d; split; assumption).
  destruct (handler e) as [h|] eqn:He; simpl; [|exists d; auto].
  destruct (Hh e h He s1) as (d' & Ht' & Hd').
  exists (d ++ d'). rewrite Ht', Ht, app_assoc. auto.
Qed.

Lemma adds_try_finally {R} (body : prog W A R) cleanup :
  adds Q body -> adds Q cleanup -> adds Q (try_finally body cleanup).
Proof.
  intros Hb Hc s. unfold try_finally.
  destruct (Hb s) as (d & Ht & Hd).
  destruct (body s) as [r s1]. simpl in Ht.
  destruct (Hc s1) as (d' & Ht' & Hd').
  exists (d ++ d').
  destruct (cleanup s1) as [[[]| | |e] s2]; simpl in *;
    rewrite Ht', Ht, app_assoc; auto.
Qed.

Lemma adds_for_each {X} (xs : list X) (body : X -> prog W A unit) :
  (forall x, adds Q (body x)) -> adds Q (for_each xs body).
Proof.
  intros Hb. induction xs as [|x xs IH]; [apply adds_ret|].
  intros s. simpl.
  destruct (Hb x s) as (d & Ht & Hd).
  destruct (body x s) as [[r| | |e] s1]; simpl in *;
    try (exists d; split; assumption);
    destruct (IH s1) as (d' & Ht' & Hd');
    exists (d ++ d'); rewrite Ht', Ht, app_assoc; auto.
Qed.

Lemma adds_def (body : prog W A unit) : adds Q body -> adds Q (def body).
Proof.
  intros Hb s. unfold def. destruct (Hb s) as (d & Ht & Hd).
  destruct (body s) as [[r| | |e] s1]; simpl in *; exists d; auto.
Qed.

Lemma adds_if {R} (b : bool) (p q : prog W A R) :
  adds Q p -> adds Q q -> adds Q (if b then p else q).
Proof. destruct b; auto. Qed.

Lemma adds_log (m : A) (level verbosity : string) :
  (passes level verbosity = false -> Q [Report level m]) ->
  (passes level verbosity = true -> Q [Report level m; Print m]) ->
  adds Q (log m level verbosity : prog W A unit).
Proof.
  intros Hno Hyes s. unfold passes, rank in Hno, Hyes.
  unfold log, print, bind, emit, levels_getitem. simpl.
  destruct (levels !! verbosity) as [v|]; simpl;
    [|exists [Report level m]; auto].
  destruct (levels !! level) as [l|]; simpl;
    [|exists [Report level m]; auto].
  destruct (l <=? v)%Z; simpl.
  - exists [Report level m; Print m]. rewrite <- app_assoc. auto.
  - exists [Report level m]. auto.
Qed.
End Adds.

(** ** Runs that differ only in the threshold *)

Lemma actions_app {A} (t1 t2 : list (event A)) :
  actions (t1 ++ t2) = actions t1 ++ actions t2.
Proof.
  induction t1 as [|[c|l m|m] t1 IH]; simpl; rewrite ?IH; reflexivity.
Qed.

Lemma calls_actions {A} (t : list (event A)) : calls (actions t) = calls t.
Proof.
  induction t as [|[c|l m|m] t IH]; simpl; rewrite ?IH; reflexivity.
Qed.

Lemma reports_actions {A} (t : list (event A)) : reports (actions t) = reports t.
Proof.
  induction t as [|[c|l m|m] t IH]; simpl; rewrite ?IH; reflexivity.
Qed.

Section Agree.
Context {W A : Type}.
Implicit Types s : state W A.

Lemma alike_refl s : alike s s.
Proof. repeat split. Qed.

Lemma agree_silent {R} (p : prog W A R) c :
  (forall s, p s = (c, s)) -> agree p p.
Proof. intros H s1 s2 Hs. rewrite !H. auto. Qed.

Lemma agree_ret {R} (r : R) : agree (ret r : prog W A R) (ret r).
Proof. apply (agree_silent _ (Normal r)). reflexivity. Qed.

Lemma agree_raise {R} e : agree (@raise W A R e) (raise e).
Proof. apply (agree_silent _ (Raised e)). reflexivity. Qed.

Lemma agree_return {R} : agree (@return_ W A R) return_.
Proof. apply (agree_silent _ Returned). reflexivity. Qed.

Lemma agree_continue {R} : agree (@continue_ W A R) continue_.
Proof. apply (agree_silent _ Continued). reflexivity. Qed.

Lemma agree_of_reply {R} (r : reply R) :
  agree (of_reply r : prog W A R) (of_reply r).
Proof. destruct r; [apply agree_ret | apply agree_raise]. Qed.

Lemma agree_load_client : agree (@load_client W A) load_client.
Proof.
  intros s1 s2 (Hw & Hc & Ht). unfold alike. unfold load_client. rewrite Hc.
  destruct (var_client s2) eqn:E; simpl; repeat split; auto; congruence.
Qed.

Lemma agree_store_client c : agree (@store_client W A c) (store_client c).
Proof.
  intros s1 s2 (Hw & Hc & Ht). unfold alike. unfold store_client. simpl. repeat split; auto.
Qed.

Lemma agree_invoke {R} c (f : W -> reply R * W) :
  agree (invoke c f : prog W A R) (invoke c f).
Proof.
  intros s1 s2 (Hw & Hc & Ht). unfold alike. unfold invoke, bind, emit. simpl. rewrite Hw.
  destruct (f (world s2)) as [[r|e] w']; simpl;
    rewrite !actions_app, Ht; repeat split; auto.
Qed.

Lemma agree_bind {R S} (m1 m2 : prog W A R) (k1 k2 : R -> prog W A S) :
  agree m1 m2 -> (forall r, agree (k1 r) (k2 r)) ->
  agree (bind m1 k1) (bind m2 k2).
Proof.
  intros Hm Hk s1 s2 Hs. unfold bind.
  destruct (Hm s1 s2 Hs) as (Hc & Hs').
  destruct (m1 s1) as [c1 t1], (m2 s2) as [c2 t2]. simpl in Hc, Hs'. subst c2.
  destruct c1 as [r| | |e]; simpl; auto. apply Hk. assumption.
Qed.

Lemma agree_try_except {R} (b1 b2 : prog W A R) h1 h2 :
  agree b1 b2 -> handlers_agree h1 h2 ->
  agree (try_except b1 h1) (try_except b2 h2).
Proof.
  intros Hb Hh s1 s2 Hs. unfold try_except.
  destruct (Hb s1 s2 Hs) as (Hc & Hs').
  destruct (b1 s1) as [c1 t1], (b2 s2) as [c2 t2]. simpl in Hc, Hs'. subst c2.
  destruct c1 as [r| | |e]; simpl; auto.
  specialize (Hh e). destruct (h1 e), (h2 e); try contradiction; simpl; auto.
Qed.

Lemma agree_try_finally {R} (b1 b2 : prog W A R) f1 f2 :
  agree b1 b2 -> agree f1 f2 ->
  agree (try_finally b1 f1) (try_finally b2 f2).
Proof.
  intros Hb Hf s1 s2 Hs. unfold try_finally.
  destruct (Hb s1 s2 Hs) as (Hc & Hs').
  destruct (b1 s1) as [c1 t1], (b2 s2) as [c2 t2]. simpl in Hc, Hs'. subst c2.
  destruct (Hf t1 t2 Hs') as (Hc' & Hs'').
  destruct (f1 t1) as [d1 u1], (f2 t2) as [d2 u2]. simpl in Hc', Hs''. subst d2.
  destruct d1 as [[]| | |e]; simpl; auto.
Qed.

Lemma agree_for_each {X} (xs : list X) (b1 b2 : X -> prog W A unit) :
  (forall x, agree (b1 x) (b2 x)) -> agree (for_each xs b1) (for_each xs b2).
Proof.
  intros Hb. induction xs as [|x xs IH]; [apply agree_ret|].
  intros s1 s2 Hs. simpl.
  destruct (Hb x s1 s2 Hs) as (Hc & Hs').
  destruct (b1 x s1) as [c1 t1], (b2 x s2) as [c2 t2]. simpl in Hc, Hs'.
  subst c2. destruct c1 as [r| | |e]; simpl; auto.
Qed.

Lemma agree_def (b1 b2 : prog W A unit) : agree b1 b2 -> agree (def b1) (def b2).
Proof.
  intros Hb s1 s2 Hs. unfold def.
  destruct (Hb s1 s2 Hs) as (Hc & Hs').
  destruct (b1 s1) as [c1 t1], (b2 s2) as [c2 t2]. simpl in Hc, Hs'. subst c2.
  destruct c1 as [r| | |e]; simpl; auto.
Qed.

Lemma agree_if {R} (b : bool) (p1 p2 q1 q2 : prog W A R) :
  agree p1 p2 -> agree q1 q2 ->
  agree (if b then p1 else q1) (if b then p2 else q2).
Proof. destruct b; auto. Qed.

Lemma agree_log (m : A) (level v1 v2 : string) :
  level_name v1 -> level_name v2 ->
  agree (log m level v1 : prog W A unit) (log m level v2).
Proof.
  intros H1 H2 s1 s2 (Hw & Hc & Ht). unfold alike.
  destruct (rank level) as [l|] eqn:Hl.
  - assert (Hn : level_name level) by (apply level_name_rank; eauto).
    rewrite !log_run by assumption. simpl.
    split; [reflexivity|]. repeat split; auto. simpl.
    rewrite !actions_app, Ht. unfold log_effect.
    destruct (passes level v1), (passes level v2); reflexivity.
  - rewrite !log_unknown_level by assumption. simpl.
    split; [reflexivity|]. repeat split; auto. simpl.
    rewrite !actions_app, Ht. reflexivity.
Qed.
End Agree.

(** ** The checker, on every path *)

Lemma passing_app {A} verbosity (r1 r2 : list (string * A)) :
  passing verbosity (r1 ++ r2) = passing verbosity r1 ++ passing verbosity r2.
Proof.
  induction r1 as [|[l m] r1 IH]; [reflexivity|]. simpl.
  destruct (passes l verbosity); simpl; rewrite IH; reflexivity.
Qed.

Lemma filtered_nil {A} verbosity : @filtered A verbosity [].
Proof. reflexivity. Qed.

Lemma filtered_app {A} verbosity (d1 d2 : list (event A)) :
  filtered verbosity d1 -> filtered verbosity d2 -> filtered verbosity (d1 ++ d2).
Proof.
  unfold filtered. intros H1 H2.
  rewrite stdout_app, reports_app, passing_app, H1, H2. reflexivity.
Qed.

Lemma passes_mono level v1 v2 a b :
  rank v1 = Some a -> rank v2 = Some b -> (a <= b)%Z ->
  passes level v1 = true -> passes level v2 = true.
Proof.
  unfold passes. intros -> ->. destruct (rank level) as [l|]; [|discriminate].
  intros Hab Hl. apply Z.leb_le. apply Z.leb_le in Hl. lia.
Qed.

Lemma passing_sublist {A} v1 v2 (rs : list (string * A)) :
  (forall level, passes level v1 = true -> passes level v2 = true) ->
  passing v1 rs `sublist_of` passing v2 rs.
Proof.
  intros Hmono. induction rs as [|[l m] rs IH]; [constructor|]. simpl.
  destruct (passes l v1) eqn:H1.
  - rewrite (Hmono l H1). apply sublist_skip. assumption.
  - destruct (passes l v2); [apply sublist_cons|]; assumption.
Qed.

Section CheckerPaths.
Context {W : Type} (drv : Driver W).
Implicit Types s : state W message.

Lemma except_OperationFailure_adds {R} Q (h : exn -> prog W message R) e k :
  (forall e, adds Q (h e)) ->
  except_OperationFailure h e = Some k -> adds Q k.
Proof.
  unfold except_OperationFailure. intros Hh Hk.
  destruct (is_OperationFailure e); [|discriminate].
  injection Hk as <-. apply Hh.
Qed.

Lemma except_ConnectionFailure_adds {R} Q (h : exn -> prog W message R) e k :
  (forall e, adds Q (h e)) ->
  except_ConnectionFailure h e = Some k -> adds Q k.
Proof.
  unfold except_ConnectionFailure. intros Hh Hk.
  destruct (is_ConnectionFailure e); [|discriminate].
  injection Hk as <-. apply Hh.
Qed.

Lemma except_OperationFailure_agree {R} (h1 h2 : exn -> prog W message R) :
  (forall e, agree (h1 e) (h2 e)) ->
  handlers_agree (except_OperationFailure h1) (except_OperationFailure h2).
Proof.
  intros Hh e. unfold except_OperationFailure.
  destruct (is_OperationFailure e); [apply Hh | exact I].
Qed.

Lemma except_ConnectionFailure_agree {R} (h1 h2 : exn -> prog W message R) :
  (forall e, agree (h1 e) (h2 e)) ->
  handlers_agree (except_ConnectionFailure h1) (except_ConnectionFailure h2).
Proof.
  intros Hh e. unfold except_ConnectionFailure.
  destruct (is_ConnectionFailure e); [apply Hh | exact I].
Qed.

Ltac adds_filtered :=
  repeat first
    [ progress intros
    | apply adds_log; unfold filtered; simpl;
      let H := fresh in intros H; rewrite H; reflexivity
    | apply adds_invoke; [try apply filtered_nil; try apply filtered_app ..]
    | apply adds_bind; [try apply filtered_app ..]
    | apply adds_try_except; [try apply filtered_app ..]
    | eapply except_OperationFailure_adds; [|eassumption]
    | eapply except_ConnectionFailure_adds; [|eassumption]
    | apply adds_try_finally; [try apply filtered_app ..]
    | apply adds_for_each; [try apply filtered_nil; try apply filtered_app ..]
    | apply adds_def
    | apply adds_if
    | apply adds_of_reply; apply filtered_nil
    | apply adds_load_client; apply filtered_nil
    | apply adds_store_client; apply filtered_nil
    | apply adds_ret; apply filtered_nil
    | apply adds_return; apply filtered_nil
    | apply adds_continue; apply filtered_nil
    | apply adds_raise; apply filtered_nil
    | reflexivity
    | match goal with
      | |- adds _ (match ?x with _ => _ end) => destruct x
      end ].

Lemma sanity_checks_filtered uri verbosity :
  adds (filtered verbosity) (sanity_checks drv uri verbosity).
Proof.
  unfold sanity_checks, checklist, teardown, checks, ping_check,
    replica_set_check, enumerate_and_validate, sample_data, validate_database,
    validate_collection, validate_collection_body.
  adds_filtered.
Qed.


Ltac agree_through :=
  repeat first
    [ progress intros
    | apply agree_log; assumption
    | apply agree_invoke
    | apply agree_bind
    | apply agree_try_except
    | apply except_OperationFailure_agree
    | apply except_ConnectionFailure_agree
    | apply agree_try_finally
    | apply agree_for_each
    | apply agree_def
    | apply agree_if
    | apply agree_of_reply
    | apply agree_load_client
    | apply agree_store_client
    | apply agree_ret
    | apply agree_return
    | apply agree_continue
    | apply agree_raise
    | match goal with
      | |- agree (match ?x with _ => _ end) _ => destruct x
      end ].

Lemma sanity_checks_agree uri v1 v2 :
  level_name v1 -> level_name v2 ->
  agree (sanity_checks drv uri v1) (sanity_checks drv uri v2).
Proof.
  intros H1 H2.
  unfold sanity_checks, checklist, teardown, checks, ping_check,
    replica_set_check, enumerate_and_validate, sample_data, validate_database,
    validate_collection, validate_collection_body.
  agree_through.
Qed.

Ltac names :=
  match goal with
  | |- level_name _ => first [assumption | unfold level_name; tauto]
  end.

Ltac step :=
  first
    [ erewrite invoke_returns by eassumption
    | erewrite invoke_throws by eassumption
    | rewrite log_run by names ];
  cbn [fst snd world trace var_client extend except_OperationFailure
       except_ConnectionFailure is_OperationFailure is_ConnectionFailure
       on_ConnectionFailure return_ ret raise of_reply first_name].

Ltac tidy :=
  unfold extend; cbn [world trace var_client];
  repeat (rewrite <- ?app_assoc; cbn [app]).

(** *** The threshold and the output *)


(** X2.  Two runs on the same deployment under two thresholds end the same way,
    leave the deployment in the same state, make the same calls and hand
    the same messages to [log]: the threshold changes only what is
    written. *)
Theorem verbosity_only_changes_output uri v1 v2 s :
  level_name v1 -> level_name v2 ->
  let r1 := sanity_checks drv uri v1 s in
  let r2 := sanity_checks drv uri v2 s in
  fst r1 = fst r2 /\
  world (snd r1) = world (snd r2) /\
  calls (trace (snd r1)) = calls (trace (snd r2)) /\
  reports (trace (snd r1)) = reports (trace (snd r2)).
Proof.
  intros H1 H2 r1 r2.
  destruct (sanity_checks_agree uri v1 v2 H1 H2 s s (alike_refl s))
    as (Hc & Hw & _ & Ht).
  split; [exact Hc|]. split; [exact Hw|].
  fold r1 r2 in Ht.
  rewrite <- (calls_actions (trace (snd r1))), <- (calls_actions (trace (snd r2))).
  rewrite <- (reports_actions (trace (snd r1))),
    <- (reports_actions (trace (snd r2))).
  rewrite Ht. auto.
Qed.

(** X3.  Raising the threshold only adds lines: what a run writes under a
    threshold is a subsequence of what it writes, on the same deployment,
    under any threshold of higher rank. *)
Theorem lower_threshold_writes_a_sublist uri v1 v2 a b s :
  rank v1 = Some a -> rank v2 = Some b -> (a <= b)%Z ->
  exists d1 d2,
    trace (snd (sanity_checks drv uri v1 s)) = trace s ++ d1 /\
    trace (snd (sanity_checks drv uri v2 s)) = trace s ++ d2 /\
    stdout d1 `sublist_of` stdout d2.
Proof.
  intros Ha Hb Hab.
  assert (H1 : level_name v1) by (apply level_name_rank; eauto).
  assert (H2 : level_name v2) by (apply level_name_rank; eauto).
  destruct (sanity_checks_filtered uri v1 s) as (d1 & Ht1 & Hf1).
  destruct (sanity_checks_filtered uri v2 s) as (d2 & Ht2 & Hf2).
  destruct (sanity_checks_agree uri v1 v2 H1 H2 s s (alike_refl s))
    as (_ & _ & _ & Ht).
  exists d1, d2. split; [exact Ht1|]. split; [exact Ht2|].
  assert (Hr : reports d1 = reports d2).
  { apply (f_equal reports) in Ht. rewrite !reports_actions, Ht1, Ht2 in Ht.
    rewrite !reports_app in Ht. apply app_inv_head in Ht. exact Ht. }
  unfold filtered in Hf1, Hf2. rewrite Hf1, Hf2, Hr.
  apply passing_sublist. intros level. apply (passes_mono level v1 v2 a b); auto.
Qed.

(** *** The teardown *)

(** X4.  Once the client is constructed, on every path of the run (a normal end,
    the [return] after a failed ping, a handled or an escaping exception)
    [close] is called exactly once, as the last call, and the
    connection-closed message is the last message handed to [log]. *)
Theorem close_is_the_last_call uri verbosity s c w1 :
  MongoClient drv uri (world s) = (Returns c, w1) ->
  level_name verbosity ->
  exists cs rs r s',
    sanity_checks drv uri verbosity s = (r, s') /\
    calls (trace s') = calls (trace s) ++ cs ++ [CClose] /\
    ~ In CClose cs /\
    reports (trace s')
    = reports (trace s) ++ rs ++ [("info", MConnectionClosed)].
Proof.
  intros Hconn Hv.
  destruct (sanity_checks_closes_once drv uri verbosity s c w1 Hconn Hv)
    as (d & r & s' & Hrun & Ht & Hnc).
  exists (calls d), (reports d), r, s'.
  split; [exact Hrun|]. rewrite Ht.
  rewrite !calls_app, !reports_app. cbn [calls reports].
  rewrite calls_log_effect, reports_log_effect. auto.
Qed.


(** X6.  With a threshold outside the three names, a run whose client is
    constructed logs nothing successfully: the first [log] raises
    [KeyError], the teardown closes the connection and its own [log] raises
    [KeyError] again, which is how the run ends; no check is made and
    nothing is written. *)
Theorem unknown_verbosity_run uri verbosity s c w1 :
  MongoClient drv uri (world s) = (Returns c, w1) ->
  rank verbosity = None ->
  sanity_checks drv uri verbosity s
  = (Raised (KeyError verbosity),
     {| world := close drv c w1;
        trace := trace s ++ [Call (CMongoClient uri); Report "info" MConnected;
                             Call CClose; Report "info" MConnectionClosed];
        var_client := Some c |}).
Proof.
  intros Hconn Hr.
  unfold sanity_checks, def, try_finally, try_except, checklist, teardown,
    bind, store_client, load_client.
  step. rewrite log_unknown_verbosity by exact Hr.
  cbn [fst snd extend world trace var_client except_ConnectionFailure
       is_ConnectionFailure].
  erewrite invoke_returns by reflexivity.
  rewrite log_unknown_verbosity by exact Hr.
  cbn [fst snd extend world trace var_client]. tidy. reflexivity.
Qed.

(** *** Failures outside the per-collection handler *)


(** *** The replica-set status *)

Lemma dict_getitem_throws d k e :
  dict_getitem d k = Throws e -> is_lookup_error e = true.
Proof.
  unfold dict_getitem. destruct (dict_lookup d k); [discriminate|].
  intros [= <-]. reflexivity.
Qed.

Lemma getitem_key_throws v k e :
  getitem_key v k = Throws e -> is_lookup_error e = true.
Proof.
  destruct v; cbn [getitem_key]; try (intros [= <-]; reflexivity).
  apply dict_getitem_throws.
Qed.

Lemma getitem_first_throws v e :
  getitem_first v = Throws e -> is_lookup_error e = true.
Proof.
  destruct v as [| | |[|a t]|[|x l]|]; cbn [getitem_first];
    try discriminate; intros [= <-]; reflexivity.
Qed.

Lemma replica_fields_throws status e :
  replica_fields status = Throws e -> is_lookup_error e = true.
Proof.
  unfold replica_fields, reply_bind.
  destruct (dict_getitem status "myState") eqn:H1;
    [|intros [= <-]; eapply dict_getitem_throws; eassumption].
  destruct (dict_getitem status "members") eqn:H2;
    [|intros [= <-]; eapply dict_getitem_throws; eassumption].
  destruct (getitem_first r0) eqn:H3;
    [|intros [= <-]; eapply getitem_first_throws; eassumption].
  destruct (getitem_key r1 "name") eqn:H4;
    [discriminate|intros [= <-]; eapply getitem_key_throws; eassumption].
Qed.

Lemma collection_type_throws info e :
  collection_type info = Throws e -> is_lookup_error e = true.
Proof.
  unfold collection_type, reply_bind.
  destruct (dict_getitem info "cursor") eqn:H1;
    [|intros [= <-]; eapply dict_getitem_throws; eassumption].
  destruct (getitem_key r "firstBatch") eqn:H2;
    [|intros [= <-]; eapply getitem_key_throws; eassumption].
  destruct (getitem_first r0) eqn:H3;
    [|intros [= <-]; eapply getitem_first_throws; eassumption].
  apply getitem_key_throws.
Qed.

(** X8.  When the server answers the replica-set status command, the check logs,
    at info, the [myState] of the answer and the name of its first member
    (whatever that member's role).  An answer without [myState], without
    [members], with no member, or whose first member has no [name] makes the
    check raise a lookup error instead: nothing is logged, and the
    handler of the check, which takes [OperationFailure] only, does not
    catch it. *)
Theorem replica_status_report client verbosity s status w1 :
  command_replSetGetStatus drv client (world s) = (Returns status, w1) ->
  level_name verbosity ->
  match replica_fields status with
  | Returns (myState, name) =>
      replica_set_check drv client verbosity s
      = (Normal tt,
         {| world := w1;
            trace := trace s ++ Call CReplSetGetStatus
                       :: log_effect (MReplicaSetStatus myState name)
                            "info" verbosity;
            var_client := var_client s |})
  | Throws e =>
      replica_set_check drv client verbosity s
      = (Raised e,
         {| world := w1; trace := trace s ++ [Call CReplSetGetStatus];
            var_client := var_client s |}) /\
      is_lookup_error e = true
  end.
Proof.
  intros Hs Hv.
  pose proof (replica_fields_throws status) as Hthrows.
  unfold replica_fields, reply_bind in *.
  unfold replica_set_check, try_except, bind. step.
  destruct (dict_getitem status "myState") as [myState|e1].
  2:{ cbn [of_reply raise]. specialize (Hthrows e1 eq_refl).
      destruct e1; try discriminate Hthrows; cbn; auto. }
  cbn [of_reply ret].
  destruct (dict_getitem status "members") as [members|e2].
  2:{ cbn [of_reply raise]. specialize (Hthrows e2 eq_refl).
      destruct e2; try discriminate Hthrows; cbn; auto. }
  cbn [of_reply ret].
  destruct (getitem_first members) as [member|e3].
  2:{ cbn [of_reply raise]. specialize (Hthrows e3 eq_refl).
      destruct e3; try discriminate Hthrows; cbn; auto. }
  cbn [of_reply ret].
  destruct (getitem_key member "name") as [name|e4].
  2:{ cbn [of_reply raise]. specialize (Hthrows e4 eq_refl).
      destruct e4; try discriminate Hthrows; cbn; auto. }
  cbn [of_reply ret]. step. tidy. reflexivity.
Qed.

(** *** One collection *)

(** X9.  For a name that is not a view, whose validation and index listing the
    server answers, the loop body makes the three calls in order and logs
    two messages: the verdict, then the indexes.  The verdict is an info
    line when the [valid] field of the validation is true, and an error
    line carrying the whole validation otherwise, also when the field is
    missing; the indexes are listed in either case. *)
Theorem validation_verdict db verbosity name s info w1 validation w2 indexes w3 :
  command_listCollections drv db name (world s) = (Returns info, w1) ->
  is_not_view info = true ->
  command_validate drv db name w1 = (Returns validation, w2) ->
  index_information drv (db_getitem db name) w2 = (Returns indexes, w3) ->
  level_name verbosity ->
  let verdict :=
    if truthy (dict_get validation "valid" (VBool false))
    then ("info", MCollectionValid name)
    else ("error", MValidationFailed name validation) in
  exists d,
    validate_collection drv db verbosity name s
    = (Normal tt,
       {| world := w3; trace := trace s ++ d; var_client := var_client s |}) /\
    calls d = [CListCollections (db_name db) name; CValidate (db_name db) name;
               CIndexInformation (db_name db) name] /\
    reports d = [verdict; ("info", MIndexes name indexes)] /\
    (dict_lookup validation "valid" = None ->
     verdict = ("error", MValidationFailed name validation)).
Proof.
  intros Hi Hnv Hval Hidx Hv verdict.
  unfold validate_collection, validate_collection_body, try_except, bind.
  step. unfold is_not_view in Hnv.
  destruct (collection_type info) as [type|e]; [|discriminate].
  cbn [of_reply ret]. destruct (eq_str type "view"); [discriminate|].
  cbn [ret]. step. unfold verdict, dict_get.
  destruct (truthy match dict_lookup validation "valid" with
                   | Some v => v
                   | None => VBool false
                   end) eqn:Ht;
    step; step; step; tidy;
    (eexists; split; [reflexivity|]);
    repeat (cbn [calls reports app]; rewrite ?calls_app, ?reports_app);
    rewrite ?calls_log_effect, ?reports_log_effect; cbn [app];
    (split; [reflexivity|]); (split; [reflexivity|]); intros Hnone;
    rewrite Hnone in Ht; cbn in Ht; [discriminate | reflexivity].
Qed.

(** X10.  A name whose fetched metadata has no [cursor], no [firstBatch], an empty
    first batch or no [type] makes the loop body raise a lookup error after
    the one metadata call.  The handler of the body does not take it:
    nothing is logged for the name and the loop over the remaining names
    ends there with that error. *)
Theorem malformed_metadata_ends_the_loop db verbosity name rest s info w1 e :
  command_listCollections drv db name (world s) = (Returns info, w1) ->
  collection_type info = Throws e ->
  let s1 :=
    {| world := w1;
       trace := trace s ++ [Call (CListCollections (db_name db) name)];
       var_client := var_client s |} in
  is_lookup_error e = true /\
  validate_collection drv db verbosity name s = (Raised e, s1) /\
  for_each (name :: rest) (validate_collection drv db verbosity) s
  = (Raised e, s1).
Proof.
  intros Hi Ht s1.
  pose proof (collection_type_throws info e Ht) as He.
  assert (Hrun : validate_collection drv db verbosity name s = (Raised e, s1)).
  { unfold validate_collection, validate_collection_body, try_except, bind.
    step. rewrite Ht. cbn [of_reply raise].
    destruct e; try discriminate He; reflexivity. }
  split; [exact He|]. split; [exact Hrun|].
  cbn [for_each]. rewrite Hrun. reflexivity.
Qed.

(** *** The endpoint *)

(** X11.  A non-empty [--uri] is used as it is: [main] is then the run of
    [sanity_checks] on it, with no look at the environment and no prompt.
    Without it, a non-empty [MONGO_URI] is the endpoint, and nothing is
    asked.  With [MONGO_URI] unset or empty as well, the endpoint is what
    is typed at the prompt, whatever it is; and when the prompt itself
    raises, [main] ends with that exception without constructing a
    client. *)
Theorem endpoint_resolution verbosity s :
  (forall u, u <> "" ->
     main drv {| args_uri := Some u; args_verbosity := verbosity |} s
     = sanity_checks drv u verbosity s) /\
  (forall flag u,
     truthy_str flag = false ->
     getenv drv "MONGO_URI" (world s) = Some u -> u <> "" ->
     main drv {| args_uri := flag; args_verbosity := verbosity |} s
     = sanity_checks drv u verbosity (extend s [Call (CGetenv "MONGO_URI")])) /\
  (forall flag,
     truthy_str flag = false ->
     truthy_str (getenv drv "MONGO_URI" (world s)) = false ->
     let asked :=
       trace s ++ [Call (CGetenv "MONGO_URI"); Call (CInput uri_prompt)] in
     (forall typed w1,
        input drv uri_prompt (world s) = (Returns typed, w1) ->
        main drv {| args_uri := flag; args_verbosity := verbosity |} s
        = sanity_checks drv typed verbosity
            {| world := w1; trace := asked; var_client := var_client s |}) /\
     (forall e w1,
        input drv uri_prompt (world s) = (Throws e, w1) ->
        main drv {| args_uri := flag; args_verbosity := verbosity |} s
        = (Raised e,
           {| world := w1; trace := asked; var_client := var_client s |}))).
Proof.
  split; [|split].
  - intros u Hu. unfold main, resolve_uri, bind. cbn [args_uri truthy_str].
    destruct (String.eqb_spec u ""); [contradiction|]. reflexivity.
  - intros flag u Hflag Henv Hu. unfold main, resolve_uri, get_mongo_uri, bind.
    cbn [args_uri args_verbosity]. rewrite Hflag.
    erewrite invoke_returns by reflexivity. rewrite Henv.
    cbn [truthy_str default]. destruct (String.eqb_spec u ""); [contradiction|].
    reflexivity.
  - intros flag Hflag Henv asked.
    assert (Hget : forall (r : reply string) w1,
              input drv uri_prompt (world s) = (r, w1) ->
              get_mongo_uri drv s
              = of_reply r {| world := w1; trace := asked;
                              var_client := var_client s |}).
    { intros r w1 Hin. unfold get_mongo_uri, bind.
      erewrite invoke_returns by reflexivity. rewrite Henv.
      fold uri_prompt. unfold asked.
      destruct r as [typed|e]; step; tidy; reflexivity. }
    split.
    + intros typed w1 Hin. unfold main, resolve_uri, bind.
      cbn [args_uri args_verbosity]. rewrite Hflag.
      rewrite (Hget _ _ Hin). reflexivity.
    + intros e w1 Hin. unfold main, resolve_uri, bind.
      cbn [args_uri args_verbosity]. rewrite Hflag.
      rewrite (Hget _ _ Hin). reflexivity.
Qed.
End CheckerPaths.

(** ** Further runs on concrete deployments *)

Lemma verbosity_only_changes_output_witness :
  fst (sanity_checks fixed_driver endpoint "error" (start standalone))
  = fst (sanity_checks fixed_driver endpoint "info" (start standalone)) /\
  reports (trace (snd (sanity_checks fixed_driver endpoint "error"
                         (start standalone))))
  = reports (trace (snd (sanity_checks fixed_driver endpoint "info"
                           (start standalone)))).
Proof.
  destruct (verbosity_only_changes_output fixed_driver endpoint "error" "info"
              (start standalone) level_name_error level_name_info)
    as (Hc & _ & _ & Hr).
  split; [exact Hc | exact Hr].
Defined.

Lemma lower_threshold_writes_a_sublist_witness :
  exists d1 d2,
    trace (snd (sanity_checks fixed_driver endpoint "warning"
                  (start unvalidating))) = d1 /\
    trace (snd (sanity_checks fixed_driver endpoint "info"
                  (start unvalidating))) = d2 /\
    stdout d1 `sublist_of` stdout d2.
Proof.
  destruct (lower_threshold_writes_a_sublist fixed_driver endpoint
              "warning" "info" 1%Z 2%Z (start unvalidating)
              eq_refl eq_refl ltac:(lia))
    as (d1 & d2 & H1 & H2 & Hs).
  exists d1, d2. split; [exact H1|]. split; [exact H2 | exact Hs].
Defined.

Lemma close_is_the_last_call_witness :
  exists cs rs r s',
    sanity_checks fixed_driver endpoint "info" (start racing) = (r, s') /\
    calls (trace s') = cs ++ [CClose] /\
    ~ In CClose cs /\
    reports (trace s') = rs ++ [("info", MConnectionClosed)].
Proof.
  destruct (close_is_the_last_call fixed_driver endpoint "info" (start racing)
              {| client_uri := endpoint |} racing eq_refl level_name_info)
    as (cs & rs & r & s' & Hrun & Hc & Hn & Hr).
  exists cs, rs, r, s'. split; [exact Hrun|]. split; [exact Hc|].
  split; [exact Hn | exact Hr].
Defined.


Lemma unknown_verbosity_run_witness :
  sanity_checks fixed_driver endpoint "debug" (start standalone)
  = (Raised (KeyError "debug"),
     {| world := standalone;
        trace := [Call (CMongoClient endpoint); Report "info" MConnected;
                  Call CClose; Report "info" MConnectionClosed];
        var_client := Some {| client_uri := endpoint |} |}).
Proof.
  exact (unknown_verbosity_run fixed_driver endpoint "debug" (start standalone)
           {| client_uri := endpoint |} standalone eq_refl eq_refl).
Defined.


Lemma replica_status_report_witness :
  replica_set_check fixed_driver {| client_uri := endpoint |} "info"
    (start replica_member)
  = (Normal tt,
     {| world := replica_member;
        trace := Call CReplSetGetStatus
                   :: log_effect
                        (MReplicaSetStatus (VInt 2) (VStr "db0.example:27017"))
                        "info" "info";
        var_client := None |}).
Proof.
  exact (replica_status_report fixed_driver {| client_uri := endpoint |} "info"
           (start replica_member) secondary_status replica_member
           eq_refl level_name_info).
Defined.

Lemma validation_verdict_witness :
  exists d,
    validate_collection fixed_driver (shop endpoint) "error" "orders"
      (start unverdicted)
    = (Normal tt, {| world := unverdicted; trace := d; var_client := None |}) /\
    reports d
    = [("error", MValidationFailed "orders" [("ok", VInt 1)]);
       ("info", MIndexes "orders" [("_id_", VDict [("v", VInt 2)])])].
Proof.
  destruct (validation_verdict fixed_driver (shop endpoint) "error" "orders"
              (start unverdicted) (collection_info "orders" "collection")
              unverdicted [("ok", VInt 1)] unverdicted
              [("_id_", VDict [("v", VInt 2)])] unverdicted
              eq_refl eq_refl eq_refl eq_refl level_name_error)
    as (d & Hrun & _ & Hr & _).
  exists d. split; [exact Hrun | exact Hr].
Defined.

Lemma malformed_metadata_ends_the_loop_witness :
  for_each ["orders"; "recent"]
    (validate_collection fixed_driver (shop endpoint) "info") (start racing)
  = (Raised IndexError,
     {| world := racing; trace := [Call (CListCollections "shop" "orders")];
        var_client := None |}).
Proof.
  destruct (malformed_metadata_ends_the_loop fixed_driver (shop endpoint)
              "info" "orders" ["recent"] (start racing)
              [("cursor", VDict [("firstBatch", VList [])])] racing IndexError
              eq_refl eq_refl)
    as (_ & _ & Hloop).
  exact Hloop.
Defined.

Lemma endpoint_resolution_witness :
  main fixed_driver
    {| args_uri := Some endpoint; args_verbosity := "info" |} (start standalone)
  = sanity_checks fixed_driver endpoint "info" (start standalone) /\
  main fixed_driver {| args_uri := None; args_verbosity := "info" |}
    (start headless)
  = (Raised (OtherError "EOFError"),
     {| world := headless;
        trace := [Call (CGetenv "MONGO_URI"); Call (CInput uri_prompt)];
        var_client := None |}).
Proof.
  destruct (endpoint_resolution fixed_driver "info" (start standalone))
    as (Hflag & _).
  destruct (endpoint_resolution fixed_driver "info" (start headless))
    as (_ & _ & Hprompt).
  split.
  - apply Hflag. discriminate.
  - destruct (Hprompt None eq_refl eq_refl) as (_ & Hfail).
    exact (Hfail (OtherError "EOFError") headless eq_refl).
Defined.
